(** * The favourites manager of next-bus

    A shallow embedding of the class [FavouritesManager] of
    [static/next-bus.js]: the favourites object, its persisted copy in
    [localStorage], the cards rendered from it and the toggle button bound
    to the bus-times heading.

    JavaScript strings are sequences of UTF-16 code units, and are modelled
    as such: a code unit is an [N].  The platform operations the class calls
    (property access on a plain object, [JSON.parse], [JSON.stringify],
    [String.prototype.replace] and [trim], [URLSearchParams.get],
    [classList.toggle]) are written out as functions on these.

    What the model takes for granted:
    - [this.favourites] is a plain object whose values are strings, as the
      class itself creates it (stop id to stop name);
    - [localStorage.setItem] stores what it is given (no quota);
    - the document holds, of the elements of class [favourite-button], those
      the class creates: the buttons of the cards and of the heading. *)

From Stdlib Require Import NArith Ascii String.
From Stdlib Require Import Lia.
From stdpp Require Import base option list sorting gmap.

#[local] Set Warnings "-register-all".

(** ** Strings *)

Abbreviation jsstring := (list N).

(** The code units of an ASCII literal. *)
Definition js (s : string) : jsstring :=
  N_of_ascii <$> list_ascii_of_string s.

Arguments js : simpl never.

Definition is_empty (s : jsstring) : bool :=
  match s with [] => true | _ :: _ => false end.

(** ** Plain objects

    An object created by [{}] or by [JSON.parse] holds its own properties in
    the order [OrdinaryOwnPropertyKeys] lists them: the keys that are array
    indices first, in ascending numeric order, then the other keys in the
    order they were created.  Its prototype is [Object.prototype]. *)

Definition is_digit (c : N) : bool := ((48 <=? c) && (c <=? 57))%N.

Fixpoint decimal_value (acc : N) (k : jsstring) : option N :=
  match k with
  | [] => Some acc
  | c :: k' =>
      if is_digit c then decimal_value (10 * acc + (c - 48))%N k' else None
  end.

(** A key is an array index when it is the canonical decimal numeral of an
    integer below 2^32 - 1. *)
Definition array_index (k : jsstring) : option N :=
  match k with
  | [] => None
  | c :: k' =>
      if decide (c = 48%N) then
        if is_empty k' then Some 0%N else None       (* no leading zero *)
      else
        match decimal_value 0 k with
        | Some n => if (n <? 4294967295)%N then Some n else None
        | None => None
        end
  end.

Section own_properties.
Context {V : Type}.

Fixpoint own_get (k : jsstring) (o : list (jsstring * V)) : option V :=
  match o with
  | [] => None
  | (k', v) :: o' => if decide (k = k') then Some v else own_get k o'
  end.

(** Overwrite the value of an existing property; its place is kept. *)
Fixpoint own_update (k : jsstring) (v : V) (o : list (jsstring * V))
  : list (jsstring * V) :=
  match o with
  | [] => []
  | (k', v') :: o' =>
      if decide (k = k') then (k', v) :: o' else (k', v') :: own_update k v o'
  end.

(** A new array-index key [k] = [n] goes before the first key that is not
    an array index or is a larger one. *)
Fixpoint own_insert_index (n : N) (k : jsstring) (v : V)
    (o : list (jsstring * V)) : list (jsstring * V) :=
  match o with
  | [] => [(k, v)]
  | (k', v') :: o' =>
      match array_index k' with
      | Some m =>
          if (m <? n)%N then (k', v') :: own_insert_index n k v o'
          else (k, v) :: o
      | None => (k, v) :: o
      end
  end.

Definition own_insert (k : jsstring) (v : V) (o : list (jsstring * V))
  : list (jsstring * V) :=
  match array_index k with
  | Some n => own_insert_index n k v o
  | None => o ++ [(k, v)]
  end.

(** [CreateDataProperty]: what [JSON.parse] uses to build an object. *)
Definition create_data_property (k : jsstring) (v : V)
    (o : list (jsstring * V)) : list (jsstring * V) :=
  match own_get k o with
  | Some _ => own_update k v o
  | None => own_insert k v o
  end.

(** [delete o[k]]: the own property goes, if there is one. *)
Fixpoint own_delete (k : jsstring) (o : list (jsstring * V))
  : list (jsstring * V) :=
  match o with
  | [] => []
  | (k', v') :: o' =>
      if decide (k = k') then own_delete k o' else (k', v') :: own_delete k o'
  end.
End own_properties.

(** The favourites object maps stop ids to stop names, both strings. *)
Abbreviation favourites_object := (list (jsstring * jsstring)).

(** The property names every plain object inherits from [Object.prototype]. *)
Definition Object_prototype_keys : list jsstring :=
  js <$> [ "constructor"; "hasOwnProperty"; "isPrototypeOf";
           "propertyIsEnumerable"; "toLocaleString"; "toString"; "valueOf";
           "__defineGetter__"; "__defineSetter__"; "__lookupGetter__";
           "__lookupSetter__"; "__proto__" ]%string.

Definition inherited (k : jsstring) : bool :=
  bool_decide (k ∈ Object_prototype_keys).

(** What [o[k]] evaluates to. *)
Inductive property_value :=
| Undefined
| StringValue (s : jsstring)
| PrototypeValue.   (* a function of Object.prototype, or the prototype itself *)

Definition obj_get (o : favourites_object) (k : jsstring) : property_value :=
  match own_get k o with
  | Some s => StringValue s
  | None => if inherited k then PrototypeValue else Undefined
  end.

(** [ToBoolean]: the empty string and [undefined] are falsy, objects are
    truthy. *)
Definition truthy (v : property_value) : bool :=
  match v with
  | Undefined => false
  | StringValue s => negb (is_empty s)
  | PrototypeValue => true
  end.

(** [o[k] = v] for a string [v]: an own property is overwritten; the
    inherited accessor [__proto__] ignores a string; any other key becomes a
    new own property. *)
Definition obj_set (o : favourites_object) (k v : jsstring)
  : favourites_object :=
  match own_get k o with
  | Some _ => own_update k v o
  | None => if decide (k = js "__proto__") then o else own_insert k v o
  end.

Definition Object_entries (o : favourites_object)
  : list (jsstring * jsstring) := o.

Definition Object_keys (o : favourites_object) : list jsstring := o.*1.

(** ** Exceptions *)

Inductive exception := SyntaxError.

Inductive completion (A : Type) :=
| Normal (a : A)
| Throw (e : exception).
Arguments Normal {A} a.
Arguments Throw {A} e.

(** ** [JSON.stringify] of the favourites object *)

Definition hex_digit (n : N) : N :=
  if (n <? 10)%N then (48 + n)%N else (87 + n)%N.

(** [\uXXXX], in lower-case hexadecimal. *)
Definition unicode_escape (c : N) : jsstring :=
  [92; 117; hex_digit ((c / 4096) `mod` 16); hex_digit ((c / 256) `mod` 16);
   hex_digit ((c / 16) `mod` 16); hex_digit (c `mod` 16)]%N.

Definition is_high_surrogate (c : N) : bool :=
  ((55296 <=? c) && (c <=? 56319))%N.
Definition is_low_surrogate (c : N) : bool :=
  ((56320 <=? c) && (c <=? 57343))%N.

(** The body of [QuoteJSONString]: the short escapes, [\u] escapes for the
    other control characters and for unpaired surrogates, everything else
    as it is. *)
Fixpoint quote_chars (s : jsstring) : jsstring :=
  match s with
  | [] => []
  | c :: s' =>
      if decide (c = 8%N) then [92; 98]%N ++ quote_chars s'
      else if decide (c = 9%N) then [92; 116]%N ++ quote_chars s'
      else if decide (c = 10%N) then [92; 110]%N ++ quote_chars s'
      else if decide (c = 12%N) then [92; 102]%N ++ quote_chars s'
      else if decide (c = 13%N) then [92; 114]%N ++ quote_chars s'
      else if decide (c = 34%N) then [92; 34]%N ++ quote_chars s'
      else if decide (c = 92%N) then [92; 92]%N ++ quote_chars s'
      else if (c <? 32)%N then unicode_escape c ++ quote_chars s'
      else if is_high_surrogate c then
        match s' with
        | d :: s'' =>
            if is_low_surrogate d then c :: d :: quote_chars s''
            else unicode_escape c ++ quote_chars s'
        | [] => unicode_escape c
        end
      else if is_low_surrogate c then unicode_escape c ++ quote_chars s'
      else c :: quote_chars s'
  end.

Definition QuoteJSONString (s : jsstring) : jsstring :=
  [34%N] ++ quote_chars s ++ [34%N].

Fixpoint join_members (ms : list jsstring) : jsstring :=
  match ms with
  | [] => []
  | [m] => m
  | m :: ms' => m ++ [44%N] ++ join_members ms'
  end.

(** One member of the object: ["key":"value"]. *)
Definition member (p : jsstring * jsstring) : jsstring :=
  QuoteJSONString p.1 ++ [58%N] ++ QuoteJSONString p.2.

Definition JSON_stringify (o : favourites_object) : jsstring :=
  [123%N] ++ join_members (member <$> Object_entries o) ++ [125%N].

(** ** [JSON.parse]

    The JSON grammar of ECMA-404 read one code unit at a time by a pushdown
    automaton: [mode] says what may come next, the stack holds the arrays
    and objects that are still open.  A number keeps its lexeme: its value
    as a double is not needed here. *)

Inductive value :=
| VNull
| VBoolean (b : bool)
| VNumber (lexeme : jsstring)
| VString (s : jsstring)
| VArray (items : list value)
| VObject (props : list (jsstring * value)).

Inductive frame :=
| FArray (items : list value)                 (* elements so far, last first *)
| FObject (props : list (jsstring * value))   (* between members *)
| FMember (props : list (jsstring * value)) (key : jsstring).

Inductive numstate :=
| NMinus | NZero | NInt | NPoint | NFrac | NExp | NExpSign | NExpDigits.

Inductive mode :=
| MValue (may_close : bool)    (* a value; [may_close]: or the ] of [] *)
| MKey (may_close : bool)      (* a member name; [may_close]: or the } of {} *)
| MColon
| MAfter                       (* after a value inside an array or object *)
| MDone (v : value)            (* after the outermost value *)
| MString (acc : jsstring)     (* inside a string; [acc] is last first *)
| MEscape (acc : jsstring)
| MHex (acc : jsstring) (count : nat) (code : N)
| MNumber (ns : numstate) (acc : jsstring)
| MLiteral (rest : jsstring) (v : value).

Definition is_json_whitespace (c : N) : bool :=
  bool_decide (c ∈ [32; 9; 10; 13]%N).

Definition hex_value (c : N) : option N :=
  if is_digit c then Some (c - 48)%N
  else if ((97 <=? c) && (c <=? 102))%N then Some (c - 87)%N
  else if ((65 <=? c) && (c <=? 70))%N then Some (c - 55)%N
  else None.

Definition num_step (ns : numstate) (c : N) : option numstate :=
  match ns with
  | NMinus =>
      if decide (c = 48%N) then Some NZero
      else if is_digit c then Some NInt else None
  | NZero =>
      if decide (c = 46%N) then Some NPoint
      else if bool_decide (c ∈ [101; 69]%N) then Some NExp else None
  | NInt =>
      if is_digit c then Some NInt
      else if decide (c = 46%N) then Some NPoint
      else if bool_decide (c ∈ [101; 69]%N) then Some NExp else None
  | NPoint => if is_digit c then Some NFrac else None
  | NFrac =>
      if is_digit c then Some NFrac
      else if bool_decide (c ∈ [101; 69]%N) then Some NExp else None
  | NExp =>
      if bool_decide (c ∈ [43; 45]%N) then Some NExpSign
      else if is_digit c then Some NExpDigits else None
  | NExpSign => if is_digit c then Some NExpDigits else None
  | NExpDigits => if is_digit c then Some NExpDigits else None
  end.

Definition num_accepting (ns : numstate) : bool :=
  match ns with
  | NZero | NInt | NFrac | NExpDigits => true
  | _ => false
  end.

Definition parser_state : Type := mode * list frame.

(** A value is complete: it is the result, an array element or the value of
    the member whose name was read. *)
Definition complete_value (v : value) (stack : list frame)
  : option parser_state :=
  match stack with
  | [] => Some (MDone v, [])
  | FArray items :: st => Some (MAfter, FArray (v :: items) :: st)
  | FMember props k :: st =>
      Some (MAfter, FObject (create_data_property k v props) :: st)
  | FObject _ :: _ => None
  end.

Definition start_value (c : N) (stack : list frame) : option parser_state :=
  if decide (c = 123%N) then Some (MKey true, FObject [] :: stack)
  else if decide (c = 91%N) then Some (MValue true, FArray [] :: stack)
  else if decide (c = 34%N) then Some (MString [], stack)
  else if decide (c = 45%N) then Some (MNumber NMinus [c], stack)
  else if decide (c = 48%N) then Some (MNumber NZero [c], stack)
  else if is_digit c then Some (MNumber NInt [c], stack)
  else if decide (c = 116%N) then
    Some (MLiteral (js "rue") (VBoolean true), stack)
  else if decide (c = 102%N) then
    Some (MLiteral (js "alse") (VBoolean false), stack)
  else if decide (c = 110%N) then Some (MLiteral (js "ull") VNull, stack)
  else None.

Definition close_array (stack : list frame) : option parser_state :=
  match stack with
  | FArray items :: st => complete_value (VArray (reverse items)) st
  | _ => None
  end.

Definition close_object (stack : list frame) : option parser_state :=
  match stack with
  | FObject props :: st => complete_value (VObject props) st
  | _ => None
  end.

(** What may follow a complete value. *)
Definition step_after (st : parser_state) (c : N) : option parser_state :=
  match st with
  | (MAfter, stack) =>
      if is_json_whitespace c then Some st
      else if decide (c = 44%N) then
        match stack with
        | FArray _ :: _ => Some (MValue false, stack)
        | FObject _ :: _ => Some (MKey false, stack)
        | _ => None
        end
      else if decide (c = 93%N) then close_array stack
      else if decide (c = 125%N) then close_object stack
      else None
  | (MDone _, _) => if is_json_whitespace c then Some st else None
  | _ => None
  end.

Definition step (st : parser_state) (c : N) : option parser_state :=
  match st with
  | (MValue may_close, stack) =>
      if is_json_whitespace c then Some st
      else if may_close && bool_decide (c = 93%N) then close_array stack
      else start_value c stack
  | (MKey may_close, stack) =>
      if is_json_whitespace c then Some st
      else if decide (c = 34%N) then Some (MString [], stack)
      else if may_close && bool_decide (c = 125%N) then close_object stack
      else None
  | (MColon, stack) =>
      if is_json_whitespace c then Some st
      else if decide (c = 58%N) then Some (MValue false, stack)
      else None
  | (MAfter, _) | (MDone _, _) => step_after st c
  | (MString acc, stack) =>
      if decide (c = 34%N) then
        match stack with
        | FObject props :: stack' =>
            Some (MColon, FMember props (reverse acc) :: stack')
        | _ => complete_value (VString (reverse acc)) stack
        end
      else if decide (c = 92%N) then Some (MEscape acc, stack)
      else if (c <? 32)%N then None
      else Some (MString (c :: acc), stack)
  | (MEscape acc, stack) =>
      if decide (c = 34%N) then Some (MString (34%N :: acc), stack)
      else if decide (c = 92%N) then Some (MString (92%N :: acc), stack)
      else if decide (c = 47%N) then Some (MString (47%N :: acc), stack)
      else if decide (c = 98%N) then Some (MString (8%N :: acc), stack)
      else if decide (c = 102%N) then Some (MString (12%N :: acc), stack)
      else if decide (c = 110%N) then Some (MString (10%N :: acc), stack)
      else if decide (c = 114%N) then Some (MString (13%N :: acc), stack)
      else if decide (c = 116%N) then Some (MString (9%N :: acc), stack)
      else if decide (c = 117%N) then Some (MHex acc 0 0%N, stack)
      else None
  | (MHex acc count code, stack) =>
      match hex_value c with
      | Some d =>
          let code' := (16 * code + d)%N in
          if decide (count = 3) then Some (MString (code' :: acc), stack)
          else Some (MHex acc (S count) code', stack)
      | None => None
      end
  | (MNumber ns acc, stack) =>
      match num_step ns c with
      | Some ns' => Some (MNumber ns' (c :: acc), stack)
      | None =>
          if num_accepting ns then
            st' ← complete_value (VNumber (reverse acc)) stack;
            step_after st' c
          else None
      end
  | (MLiteral rest v, stack) =>
      match rest with
      | e :: rest' =>
          if decide (c = e) then
            if is_empty rest' then complete_value v stack
            else Some (MLiteral rest' v, stack)
          else None
      | [] => None
      end
  end.

Fixpoint run (st : parser_state) (text : jsstring) : option parser_state :=
  match text with
  | [] => Some st
  | c :: text' => st' ← step st c; run st' text'
  end.

(** At the end of the text the outermost value must be complete. *)
Definition finish (st : parser_state) : option value :=
  match st with
  | (MDone v, _) => Some v
  | (MNumber ns acc, []) =>
      if num_accepting ns then Some (VNumber (reverse acc)) else None
  | _ => None
  end.

Definition JSON_parse (text : jsstring) : completion value :=
  match run (MValue false, []) text ≫= finish with
  | Some v => Normal v
  | None => Throw SyntaxError
  end.

(** ** String methods *)

Fixpoint strip_prefix (p s : jsstring) : option jsstring :=
  match p, s with
  | [], _ => Some s
  | _ :: _, [] => None
  | a :: p', b :: s' => if decide (a = b) then strip_prefix p' s' else None
  end.

(** [s.replace(pattern, replacement)] for a string pattern: the first
    occurrence is replaced.  The replacement used here holds no [$]. *)
Fixpoint String_replace (s pattern replacement : jsstring) : jsstring :=
  match strip_prefix pattern s with
  | Some rest => replacement ++ rest
  | None =>
      match s with
      | [] => []
      | c :: s' => c :: String_replace s' pattern replacement
      end
  end.

(** White space and line terminators, as [trim] strips them. *)
Definition is_whitespace (c : N) : bool :=
  bool_decide
    (c ∈ [9; 10; 11; 12; 13; 32; 160; 5760; 8232; 8233; 8239; 8287; 12288;
          65279]%N)
  || ((8192 <=? c) && (c <=? 8202))%N.

Fixpoint trim_start (s : jsstring) : jsstring :=
  match s with
  | [] => []
  | c :: s' => if is_whitespace c then trim_start s' else s
  end.

Definition String_trim (s : jsstring) : jsstring :=
  reverse (trim_start (reverse (trim_start s))).

(** ** The page *)

(** An element of class [favourite-button].  [button_click] is the listener
    the script added to the button itself: the arguments it passes to
    [toggleFavourite]. *)
Record button := {
  button_classList : list jsstring;
  button_stopId : jsstring;                       (* dataset.stopId *)
  button_title : jsstring;
  button_innerHTML : jsstring;
  button_click : option (jsstring * jsstring);
}.

(** A favourite card, as [renderFavourites] builds it: a [div] whose
    [innerHTML] is a heading [<h3>] around the stop name and a button.  The
    heading keeps the markup that was spliced into it; the strings spliced in
    are taken not to end the heading or the button tag early, so that the
    card has the shape of the template.  [card_click] holds the stop id and
    name the card's click listener closes over. *)
Record card := {
  card_className : jsstring;
  card_heading : jsstring;
  card_button : button;
  card_click : jsstring * jsstring;
}.

(** The heading [#bus-times h2]: its text and the buttons appended to it. *)
Record heading := {
  heading_text : jsstring;
  heading_buttons : list button;
}.

(** The manager and the parts of the page it reads and writes.  An element
    that is not in the document is [None]. *)
Record State := {
  favourites : favourites_object;                 (* this.favourites *)
  localStorage : gmap jsstring jsstring;
  location_search : list (jsstring * jsstring);   (* the query parameters *)
  favourites_list : option (list card);           (* #favourites-list *)
  favourites_section : option jsstring;           (* its style.display *)
  bus_times_heading : option heading;             (* #bus-times h2 *)
}.

Definition set_favourites (f : favourites_object) (st : State) : State :=
  {| favourites := f;
     localStorage := localStorage st;
     location_search := location_search st;
     favourites_list := favourites_list st;
     favourites_section := favourites_section st;
     bus_times_heading := bus_times_heading st |}.

Definition set_localStorage (s : gmap jsstring jsstring) (st : State)
  : State :=
  {| favourites := favourites st;
     localStorage := s;
     location_search := location_search st;
     favourites_list := favourites_list st;
     favourites_section := favourites_section st;
     bus_times_heading := bus_times_heading st |}.

Definition set_favourites_list (l : option (list card)) (st : State)
  : State :=
  {| favourites := favourites st;
     localStorage := localStorage st;
     location_search := location_search st;
     favourites_list := l;
     favourites_section := favourites_section st;
     bus_times_heading := bus_times_heading st |}.

Definition set_favourites_section (d : option jsstring) (st : State)
  : State :=
  {| favourites := favourites st;
     localStorage := localStorage st;
     location_search := location_search st;
     favourites_list := favourites_list st;
     favourites_section := d;
     bus_times_heading := bus_times_heading st |}.

Definition set_bus_times_heading (h : option heading) (st : State) : State :=
  {| favourites := favourites st;
     localStorage := localStorage st;
     location_search := location_search st;
     favourites_list := favourites_list st;
     favourites_section := favourites_section st;
     bus_times_heading := h |}.

(** [new URLSearchParams(window.location.search).get(name)]: the value of
    the first parameter of that name, [null] when there is none. *)
Fixpoint URLSearchParams_get (name : jsstring)
    (params : list (jsstring * jsstring)) : option jsstring :=
  match params with
  | [] => None
  | (n, v) :: params' =>
      if decide (n = name) then Some v else URLSearchParams_get name params'
  end.

(** ** The class [FavouritesManager] *)

Definition storage_key : jsstring := js "busStopFavourites".

Definition quoted (s : jsstring) : jsstring := [34%N] ++ s ++ [34%N].

(** [<i class="fas fa-star"></i>] *)
Definition star_icon : jsstring :=
  js "<i class=" ++ quoted (js "fas fa-star") ++ js "></i>".

Definition loadFavourites (st : State) : completion value :=
  match localStorage st !! storage_key with
  | None => Normal (VObject [])
  | Some stored =>
      if is_empty stored then Normal (VObject []) else JSON_parse stored
  end.

Definition saveFavourites (st : State) : State :=
  set_localStorage
    (<[storage_key := JSON_stringify (favourites st)]> (localStorage st)) st.

(** The card of one entry; the button's content is the icon on a line of
    its own, as the template has it. *)
Definition make_card (entry : jsstring * jsstring) : card :=
  let '(stopId, stopName) := entry in
  {| card_className := js "favourite-card";
     card_heading := stopName;
     card_button :=
       {| button_classList := [js "favourite-button"; js "active"];
          button_stopId := stopId;
          button_title := js "Remove from favourites";
          button_innerHTML :=
            [10%N] ++ replicate 20 32%N ++ star_icon
            ++ [10%N] ++ replicate 16 32%N;
          button_click := None |};
     card_click := (stopId, stopName) |}.

Definition renderFavourites (st : State) : State :=
  match favourites_list st with
  | None => st
  | Some _ =>
      let cards := make_card <$> Object_entries (favourites st) in
      let st' := set_favourites_list (Some cards) st in
      match favourites_section st' with
      | Some _ =>
          set_favourites_section
            (Some (if decide (length (Object_keys (favourites st')) = 0)
                   then js "none" else js "block")) st'
      | None => st'
      end
  end.

(** [classList.toggle(token, force)] *)
Definition classList_toggle (token : jsstring) (force : bool)
    (tokens : list jsstring) : list jsstring :=
  if bool_decide (token ∈ tokens) then
    if force then tokens else filter (λ t, t ≠ token) tokens
  else
    if force then tokens ++ [token] else tokens.

Definition has_class (c : jsstring) (b : button) : bool :=
  bool_decide (c ∈ button_classList b).

Definition update_button (f : favourites_object) (b : button) : button :=
  if has_class (js "favourite-button") b then
    {| button_classList :=
         classList_toggle (js "active") (truthy (obj_get f (button_stopId b)))
           (button_classList b);
       button_stopId := button_stopId b;
       button_title := button_title b;
       button_innerHTML := star_icon;
       button_click := button_click b |}
  else b.

Definition update_card (f : favourites_object) (c : card) : card :=
  {| card_className := card_className c;
     card_heading := card_heading c;
     card_button := update_button f (card_button c);
     card_click := card_click c |}.

Definition update_heading (f : favourites_object) (h : heading) : heading :=
  {| heading_text := heading_text h;
     heading_buttons := update_button f <$> heading_buttons h |}.

Definition updateFavouriteButtons (st : State) : State :=
  let f := favourites st in
  set_bus_times_heading
    (option_map (update_heading f) (bus_times_heading st))
    (set_favourites_list
       (option_map (map (update_card f)) (favourites_list st)) st).

Definition toggleFavourite (stopId stopName : jsstring) (st : State)
  : State :=
  let f := favourites st in
  let f' :=
    if truthy (obj_get f stopId) then own_delete stopId f
    else obj_set f stopId stopName in
  updateFavouriteButtons
    (renderFavourites (saveFavourites (set_favourites f' st))).

(** [document.querySelector('.favourite-button')] finds an element: one of
    the cards' buttons or one in the heading. *)
Definition document_has_favourite_button (st : State) : bool :=
  existsb (λ c, has_class (js "favourite-button") (card_button c))
    (default [] (favourites_list st))
  || existsb (has_class (js "favourite-button"))
       (default [] (option_map heading_buttons (bus_times_heading st))).

Definition addFavouriteButtonToBusTimes (st : State) : State :=
  match bus_times_heading st with
  | None => st
  | Some busTimesHeader =>
      let stopName :=
        String_trim
          (String_replace (heading_text busTimesHeader)
             (js "Upcoming Buses at ") []) in
      match URLSearchParams_get (js "stop_id") (location_search st) with
      | None => st
      | Some stopId =>
          if is_empty stopId then st
          else if document_has_favourite_button st then st
          else
            let active := truthy (obj_get (favourites st) stopId) in
            let favouriteButton :=
              {| button_classList :=
                   if active then [js "favourite-button"; js "active"]
                   else [js "favourite-button"];
                 button_stopId := stopId;
                 button_title :=
                   if active then js "Remove from favourites"
                   else js "Add to favourites";
                 button_innerHTML := star_icon;
                 button_click := Some (stopId, stopName) |} in
            set_bus_times_heading
              (Some {| heading_text := heading_text busTimesHeader;
                       heading_buttons :=
                         heading_buttons busTimesHeader ++ [favouriteButton] |})
              st
      end
  end.

(** ** The text a heading displays

    Assigning to [innerHTML] parses the markup.  The part of that parsing
    modelled here: ordinary characters are text, and the tags of the
    phrasing elements [b], [i], [em] and [strong] are elements, not text.
    Any other use of [<], a character reference ([&]), NUL and CR are outside
    the model: the result is [None] there. *)

Definition phrasing_tags : list jsstring :=
  js <$> ["b"; "/b"; "i"; "/i"; "em"; "/em"; "strong"; "/strong"]%string.

Fixpoint html_text_from (tag : option jsstring) (markup : jsstring)
  : option jsstring :=
  match markup with
  | [] => match tag with None => Some [] | Some _ => None end
  | c :: markup' =>
      match tag with
      | None =>
          if decide (c = 60%N) then html_text_from (Some []) markup'
          else if bool_decide (c ∈ [38; 0; 13]%N) then None
          else cons c <$> html_text_from None markup'
      | Some acc =>
          if decide (c = 62%N) then
            if bool_decide (reverse acc ∈ phrasing_tags)
            then html_text_from None markup' else None
          else html_text_from (Some (c :: acc)) markup'
      end
  end.

Definition html_text (markup : jsstring) : option jsstring :=
  html_text_from None markup.

(** The [textContent] of a card's heading. *)
Definition displayed_name (c : card) : option jsstring :=
  html_text (card_heading c).

(** A string with nothing for the HTML parser to interpret. *)
Definition plain_text (s : jsstring) : Prop :=
  Forall (λ c, c ∉ [60; 38; 0; 13]%N) s.

(** ** Sequences of toggles *)

Fixpoint toggle_all (ops : list (jsstring * jsstring)) (st : State) : State :=
  match ops with
  | [] => st
  | (stopId, stopName) :: ops' =>
      toggle_all ops' (toggleFavourite stopId stopName st)
  end.

(** A page with the given favourites and stored value, the favourites list
    and section in place and no bus-times view. *)
Definition page (f : favourites_object) (stored : option jsstring) : State :=
  {| favourites := f;
     localStorage :=
       match stored with
       | Some s => {[ storage_key := s ]}
       | None => ∅
       end;
     location_search := [];
     favourites_list := Some [];
     favourites_section := Some (js "none");
     bus_times_heading := None |}.

(** ** Scenarios *)

(** The bus-times view is swapped in for a stop: the address carries the
    stop id, the new heading has no button yet, and the listener for
    [htmx:afterSwap] that [initializeEventListeners] installs calls the
    binder. *)
Definition show_bus_times (stopId text : jsstring) (st : State) : State :=
  addFavouriteButtonToBusTimes
    {| favourites := favourites st;
       localStorage := localStorage st;
       location_search := [(js "stop_id", stopId)];
       favourites_list := favourites_list st;
       favourites_section := favourites_section st;
       bus_times_heading :=
         Some {| heading_text := text; heading_buttons := [] |} |}.

(** The cards in the favourites list. *)
Definition rendered_cards (st : State) : list card :=
  default [] (favourites_list st).

Definition heading_button_count (st : State) : nat :=
  length (default [] (option_map heading_buttons (bus_times_heading st))).

Definition section_visible (st : State) : Prop :=
  favourites_section st = Some (js "block").

(** Calling the binder [n] times in a row. *)
Fixpoint bind_times (n : nat) (st : State) : State :=
  match n with
  | 0 => st
  | S n' => bind_times n' (addFavouriteButtonToBusTimes st)
  end.

(** The buttons of class [favourite-button] in the bus-times heading. *)
Definition heading_toggle_controls (st : State) : list button :=
  filter (λ b, has_class (js "favourite-button") b = true)
    (default [] (option_map heading_buttons (bus_times_heading st))).

(** ** The order of own properties

    The lists that stand for objects: no key twice, the array indices first
    and ascending.  [key_before k1 k2] says that [k1] may come before [k2]. *)

Definition key_before (k1 k2 : jsstring) : Prop :=
  k1 ≠ k2
  ∧ match array_index k2 with
    | Some n =>
        match array_index k1 with Some m => (m < n)%N | None => False end
    | None => True
    end.

Definition canonical {V : Type} (o : list (jsstring * V)) : Prop :=
  StronglySorted key_before o.*1.

Definition no_leading_zero (k : jsstring) : Prop :=
  match k with c :: _ => c ≠ 48%N | [] => True end.

(** The favourites object as a [JSON.parse] result. *)
Definition to_value (p : jsstring * jsstring) : jsstring * value :=
  (p.1, VString p.2).

Definition favourites_value (f : favourites_object) : value :=
  VObject (to_value <$> f).

(** What [JSON.parse] does with one more member of an object. *)
Definition add_member (o : list (jsstring * value)) (p : jsstring * jsstring)
  : list (jsstring * value) :=
  create_data_property p.1 (VString p.2) o.

(** ** The buttons of the document *)

(** The elements [document.querySelectorAll('.favourite-button')] visits
    are among these: the buttons of the cards, then those of the heading. *)
Definition document_buttons (st : State) : list button :=
  (card_button <$> default [] (favourites_list st))
  ++ default [] (option_map heading_buttons (bus_times_heading st)).

(** ** Clicks *)

(** A click on the button of the [i]-th card: the card's listener finds
    [e.target.closest('.favourite-button')] and toggles the stop and name it
    closed over. *)
Definition click_card_button (i : nat) (st : State) : State :=
  match default [] (favourites_list st) !! i with
  | Some c => toggleFavourite (card_click c).1 (card_click c).2 st
  | None => st
  end.

(** A click on the [i]-th button of the bus-times heading: the listener the
    binder added, if it added one to this button. *)
Definition click_heading_button (i : nat) (st : State) : State :=
  match default [] (option_map heading_buttons (bus_times_heading st)) !! i with
  | Some {| button_click := Some (stopId, stopName) |} =>
      toggleFavourite stopId stopName st
  | _ => st
  end.

(** The listener for [htmx:afterSwap] that [initializeEventListeners]
    installs: [target] is the id of the element that was swapped. *)
Definition afterSwap (target : jsstring) (st : State) : State :=
  if decide (target = js "bus-times") then addFavouriteButtonToBusTimes st
  else st.

(** ** The constructor *)

(** The favourites object a parsed value stands for, when it is an object
    whose values are all strings. *)
Definition string_entry (p : jsstring * value) : option (jsstring * jsstring) :=
  match p.2 with
  | VString s => Some (p.1, s)
  | _ => None
  end.

Definition favourites_of_value (v : value) : option favourites_object :=
  match v with
  | VObject props => mapM string_entry props
  | _ => None
  end.

(** [new FavouritesManager()]: the favourites are loaded, the listener is
    installed and the cards are rendered.  The result is [Normal None] when
    the stored text is JSON but no object of strings: such a manager is
    outside this model. *)
Definition new_FavouritesManager (st : State) : completion (option State) :=
  match loadFavourites st with
  | Throw e => Throw e
  | Normal v =>
      Normal (f ← favourites_of_value v;
              Some (renderFavourites (set_favourites f st)))
  end.

(** ** The rest of the page

    What the listener for [DOMContentLoaded] reads and writes besides the
    favourites: the theme, the stop input and the refresh of the bus-times
    view.  An element that is not in the document is [None] or [false]. *)

Inductive listener :=
| ThemeClick | StopInput | SelectComplete | FormSubmit | PopState
| ResponseError | AfterSwap.

Record Document := {
  page_state : State;                 (* the store, the address, the favourites *)
  data_theme : option jsstring;       (* the attribute data-theme of <html> *)
  light_icon : option jsstring;       (* #light-icon: its style.display *)
  dark_icon : option jsstring;        (* #dark-icon: its style.display *)
  theme_toggle : bool;                (* #theme-toggle *)
  prefers_dark : bool;                (* matchMedia("(prefers-color-scheme: dark)") *)
  stop_name_input : bool;             (* #stop_name *)
  stop_id_input : option jsstring;    (* #stop_id: its value *)
  form : bool;                        (* document.querySelector('form') *)
  auto_refresh : bool;                (* #auto-refresh *)
  refreshes : nat;                    (* calls of htmx.trigger('#auto-refresh', 'refresh') *)
  listeners : list listener;          (* the listeners installed so far *)
  favouritesManager : bool;           (* window.favouritesManager is set *)
}.

Inductive thrown :=
| TypeError
| Raised (e : exception).

Inductive outcome :=
| Completed
| Threw (e : thrown).

Definition set_page_state (s : State) (d : Document) : Document :=
  {| page_state := s; data_theme := data_theme d;
     light_icon := light_icon d; dark_icon := dark_icon d;
     theme_toggle := theme_toggle d; prefers_dark := prefers_dark d;
     stop_name_input := stop_name_input d; stop_id_input := stop_id_input d;
     form := form d; auto_refresh := auto_refresh d;
     refreshes := refreshes d; listeners := listeners d;
     favouritesManager := favouritesManager d |}.

Definition set_data_theme (t : option jsstring) (d : Document) : Document :=
  {| page_state := page_state d; data_theme := t;
     light_icon := light_icon d; dark_icon := dark_icon d;
     theme_toggle := theme_toggle d; prefers_dark := prefers_dark d;
     stop_name_input := stop_name_input d; stop_id_input := stop_id_input d;
     form := form d; auto_refresh := auto_refresh d;
     refreshes := refreshes d; listeners := listeners d;
     favouritesManager := favouritesManager d |}.

Definition set_light_icon (v : option jsstring) (d : Document) : Document :=
  {| page_state := page_state d; data_theme := data_theme d;
     light_icon := v; dark_icon := dark_icon d;
     theme_toggle := theme_toggle d; prefers_dark := prefers_dark d;
     stop_name_input := stop_name_input d; stop_id_input := stop_id_input d;
     form := form d; auto_refresh := auto_refresh d;
     refreshes := refreshes d; listeners := listeners d;
     favouritesManager := favouritesManager d |}.

Definition set_dark_icon (v : option jsstring) (d : Document) : Document :=
  {| page_state := page_state d; data_theme := data_theme d;
     light_icon := light_icon d; dark_icon := v;
     theme_toggle := theme_toggle d; prefers_dark := prefers_dark d;
     stop_name_input := stop_name_input d; stop_id_input := stop_id_input d;
     form := form d; auto_refresh := auto_refresh d;
     refreshes := refreshes d; listeners := listeners d;
     favouritesManager := favouritesManager d |}.

Definition set_stop_id_input (v : option jsstring) (d : Document) : Document :=
  {| page_state := page_state d; data_theme := data_theme d;
     light_icon := light_icon d; dark_icon := dark_icon d;
     theme_toggle := theme_toggle d; prefers_dark := prefers_dark d;
     stop_name_input := stop_name_input d; stop_id_input := v;
     form := form d; auto_refresh := auto_refresh d;
     refreshes := refreshes d; listeners := listeners d;
     favouritesManager := favouritesManager d |}.

Definition set_refreshes (n : nat) (d : Document) : Document :=
  {| page_state := page_state d; data_theme := data_theme d;
     light_icon := light_icon d; dark_icon := dark_icon d;
     theme_toggle := theme_toggle d; prefers_dark := prefers_dark d;
     stop_name_input := stop_name_input d; stop_id_input := stop_id_input d;
     form := form d; auto_refresh := auto_refresh d;
     refreshes := n; listeners := listeners d;
     favouritesManager := favouritesManager d |}.

Definition add_listener (l : listener) (d : Document) : Document :=
  {| page_state := page_state d; data_theme := data_theme d;
     light_icon := light_icon d; dark_icon := dark_icon d;
     theme_toggle := theme_toggle d; prefers_dark := prefers_dark d;
     stop_name_input := stop_name_input d; stop_id_input := stop_id_input d;
     form := form d; auto_refresh := auto_refresh d;
     refreshes := refreshes d; listeners := listeners d ++ [l];
     favouritesManager := favouritesManager d |}.

Definition set_favouritesManager (b : bool) (d : Document) : Document :=
  {| page_state := page_state d; data_theme := data_theme d;
     light_icon := light_icon d; dark_icon := dark_icon d;
     theme_toggle := theme_toggle d; prefers_dark := prefers_dark d;
     stop_name_input := stop_name_input d; stop_id_input := stop_id_input d;
     form := form d; auto_refresh := auto_refresh d;
     refreshes := refreshes d; listeners := listeners d;
     favouritesManager := b |}.

(** [localStorage.setItem] and the address, on the document. *)
Definition setItem (k v : jsstring) (d : Document) : Document :=
  set_page_state
    (set_localStorage (<[k := v]> (localStorage (page_state d)))
       (page_state d)) d.

Definition getItem (k : jsstring) (d : Document) : option jsstring :=
  localStorage (page_state d) !! k.

Definition set_location_search (q : list (jsstring * jsstring)) (st : State)
  : State :=
  {| favourites := favourites st;
     localStorage := localStorage st;
     location_search := q;
     favourites_list := favourites_list st;
     favourites_section := favourites_section st;
     bus_times_heading := bus_times_heading st |}.

(** ** The theme *)

(** [a || b] for a string or [null] on the left. *)
Definition or_else (a : option jsstring) (b : jsstring) : jsstring :=
  match a with
  | Some s => if is_empty s then b else s
  | None => b
  end.

(** [!a] for a string or [null]. *)
Definition falsy (a : option jsstring) : bool :=
  match a with
  | Some s => is_empty s
  | None => true
  end.

(** [updateThemeIcon]: an icon that is missing makes the assignment to its
    [style] throw, after the assignments before it. *)
Definition updateThemeIcon (theme : jsstring) (d : Document)
  : Document * outcome :=
  let '(light, dark) :=
    if decide (theme = js "dark") then (js "none", js "inline-block")
    else (js "inline-block", js "none") in
  match light_icon d with
  | None => (d, Threw TypeError)
  | Some _ =>
      let d1 := set_light_icon (Some light) d in
      match dark_icon d1 with
      | None => (d1, Threw TypeError)
      | Some _ => (set_dark_icon (Some dark) d1, Completed)
      end
  end.

(** The theme handling at the top of the listener, up to the first call of
    [updateThemeIcon]. *)
Definition init_theme (d : Document) : Document * outcome :=
  let urlTheme :=
    URLSearchParams_get (js "theme") (location_search (page_state d)) in
  let currentTheme :=
    or_else urlTheme
      (or_else (getItem (js "theme") d)
         (if prefers_dark d then js "dark" else js "light")) in
  let d1 := if falsy urlTheme then setItem (js "theme") currentTheme d else d in
  updateThemeIcon currentTheme (set_data_theme (Some currentTheme) d1).

(** The click listener of [#theme-toggle]. *)
Definition theme_toggle_click (d : Document) : Document * outcome :=
  let theme :=
    if decide (data_theme d = Some (js "light")) then js "dark"
    else js "light" in
  updateThemeIcon theme
    (setItem (js "theme") theme (set_data_theme (Some theme) d)).

(** ** The address

    [history.pushState] with the address [`${pathname}?stop_id=${stopId}`],
    and what [URLSearchParams] then reads from [location.search].  The path
    is taken to be an ordinary one (it does not start with two slashes).
    Modelled for stop ids of ASCII code units without [%]; the result is
    [None] for any other. *)

(** The URL parser drops C0 controls and spaces at the end of its input,
    and every tab and newline. *)
Fixpoint strip_leading_c0_space (s : jsstring) : jsstring :=
  match s with
  | [] => []
  | c :: s' => if (c <=? 32)%N then strip_leading_c0_space s' else s
  end.

Definition strip_trailing_c0_space (s : jsstring) : jsstring :=
  reverse (strip_leading_c0_space (reverse s)).

Definition remove_tab_newline (s : jsstring) : jsstring :=
  filter (λ c, c ∉ [9; 10; 13]%N) s.

(** The query ends where the fragment starts. *)
Fixpoint until_hash (s : jsstring) : jsstring :=
  match s with
  | [] => []
  | c :: s' => if decide (c = 35%N) then [] else c :: until_hash s'
  end.

Definition upper_hex_digit (n : N) : N :=
  if (n <? 10)%N then (48 + n)%N else (55 + n)%N.

(** The special-query percent-encode set, up to DEL: the C0 controls,
    space, the double and the single quote, [#], [<], [>] and DEL. *)
Definition query_encoded (c : N) : bool :=
  (c <=? 32)%N || bool_decide (c ∈ [34; 35; 60; 62; 39; 127]%N).

Definition query_encode_char (c : N) : jsstring :=
  if query_encoded c then
    [37%N; upper_hex_digit (c / 16); upper_hex_digit (c `mod` 16)]
  else [c].

Definition query_encode (s : jsstring) : jsstring :=
  s ≫= query_encode_char.

(** The query of the address after [pushState] for [stopId]. *)
Definition pushed_query (stopId : jsstring) : jsstring :=
  js "stop_id="
  ++ query_encode
       (until_hash (remove_tab_newline (strip_trailing_c0_space stopId))).

(** Percent-decoding, as the parser of [application/x-www-form-urlencoded]
    does it: [%] and two hexadecimal digits stand for a byte. *)
Fixpoint percent_decode (s : jsstring) : jsstring :=
  match s with
  | [] => []
  | c :: s' =>
      match s' with
      | h :: l :: s'' =>
          if decide (c = 37%N) then
            match hex_value h, hex_value l with
            | Some a, Some b => (16 * a + b)%N :: percent_decode s''
            | _, _ => c :: percent_decode s'
            end
          else c :: percent_decode s'
      | _ => c :: percent_decode s'
      end
  end.

Fixpoint split_on (sep : N) (s : jsstring) : list jsstring :=
  match s with
  | [] => [[]]
  | c :: s' =>
      if decide (c = sep) then [] :: split_on sep s'
      else
        match split_on sep s' with
        | seg :: segs => (c :: seg) :: segs
        | [] => [[c]]
        end
  end.

(** The name and the value of one sequence: what is before and after the
    first [=]; the value is empty when there is no [=]. *)
Fixpoint name_value (s : jsstring) : jsstring * jsstring :=
  match s with
  | [] => ([], [])
  | c :: s' =>
      if decide (c = 61%N) then ([], s')
      else let '(n, v) := name_value s' in (c :: n, v)
  end.

Definition plus_to_space (s : jsstring) : jsstring :=
  (λ c, if decide (c = 43%N) then 32%N else c) <$> s.

Definition urlencoded_pair (seq : jsstring) : jsstring * jsstring :=
  let '(n, v) := name_value seq in
  (percent_decode (plus_to_space n), percent_decode (plus_to_space v)).

(** The parameters [new URLSearchParams] finds in a query of ASCII text. *)
Definition urlencoded_parse (query : jsstring)
  : list (jsstring * jsstring) :=
  urlencoded_pair <$> filter (λ seq, seq ≠ []) (split_on 38%N query).

Definition in_address_model (stopId : jsstring) : bool :=
  forallb (λ c, (c <? 128)%N && negb (bool_decide (c = 37%N))) stopId.

(** The query parameters of the page after [pushState] for [stopId]. *)
Definition pushed_search (stopId : jsstring)
  : option (list (jsstring * jsstring)) :=
  if in_address_model stopId then Some (urlencoded_parse (pushed_query stopId))
  else None.

Definition pushState_stop_id (stopId : jsstring) (st : State)
  : option State :=
  q ← pushed_search stopId; Some (set_location_search q st).

(** ** The stop input and the refresh *)

(** [htmx.trigger('#auto-refresh', 'refresh')], when the element is there. *)
Definition trigger_refresh (d : Document) : Document :=
  if auto_refresh d then set_refreshes (S (refreshes d)) d else d.

(** The listener of [popstate], which is also what the page does once when
    it is loaded: a stop id in the address goes into the input and the
    bus-times view is refreshed. *)
Definition read_address (d : Document) : Document :=
  match URLSearchParams_get (js "stop_id") (location_search (page_state d)) with
  | Some stopId =>
      if is_empty stopId then d
      else
        match stop_id_input d with
        | Some _ => trigger_refresh (set_stop_id_input (Some stopId) d)
        | None => d       (* the listener is installed only with the input *)
        end
  | None => d
  end.

(** The listener of [awesomplete-selectcomplete]. *)
Definition select_complete (value : jsstring) (d : Document) : Document :=
  match stop_id_input d with
  | Some _ => set_stop_id_input (Some value) d
  | None => d
  end.

(** The listener of the form's [submit]. *)
Definition form_submit (d : Document) : option Document :=
  match stop_id_input d with
  | Some stopId =>
      if is_empty stopId then Some d
      else
        st ← pushState_stop_id stopId (page_state d);
        Some (set_page_state st d)
  | None => Some d
  end.

(** A click on the [i]-th card, outside its button: the address changes,
    and with the input in the document the view is refreshed. *)
Definition click_card (i : nat) (d : Document) : option Document :=
  match default [] (favourites_list (page_state d)) !! i with
  | Some c =>
      let stopId := (card_click c).1 in
      st ← pushState_stop_id stopId (page_state d);
      let d1 := set_page_state st d in
      Some match stop_id_input d1 with
           | Some _ => trigger_refresh (set_stop_id_input (Some stopId) d1)
           | None => d1
           end
  | None => Some d
  end.

(** ** The listener of [DOMContentLoaded]

    The theme, then the stop handling when both inputs are there, then the
    listener for failed requests, then the favourites manager.  A statement
    that throws ends the listener there.  [Awesomplete] and [htmx] are taken
    to be loaded; the registration of the service worker and the timers of
    the error listener leave no trace here.  The result is [None] when the
    stored favourites are outside the model (see [new_FavouritesManager]). *)
Definition stop_handling (d : Document) : Document * outcome :=
  if stop_name_input d && bool_decide (is_Some (stop_id_input d)) then
    let d1 := add_listener SelectComplete (add_listener StopInput d) in
    if form d1 then
      (read_address (add_listener PopState (add_listener FormSubmit d1)),
       Completed)
    else (d1, Threw TypeError)
  else (d, Completed).

Definition DOMContentLoaded (d : Document) : option (Document * outcome) :=
  match init_theme d with
  | (d1, Threw e) => Some (d1, Threw e)
  | (d1, Completed) =>
      let d2 := if theme_toggle d1 then add_listener ThemeClick d1 else d1 in
      match stop_handling d2 with
      | (d3, Threw e) => Some (d3, Threw e)
      | (d3, Completed) =>
          let d4 := add_listener ResponseError d3 in
          match new_FavouritesManager (page_state d4) with
          | Throw e => Some (d4, Threw (Raised e))
          | Normal None => None
          | Normal (Some st) =>
              Some (set_favouritesManager true
                      (add_listener AfterSwap (set_page_state st d4)),
                    Completed)
          end
      end
  end.

(** ** Strings without white space at either end *)

Definition trimmed (s : jsstring) : Prop :=
  (∀ c, head s = Some c → is_whitespace c = false)
  ∧ (∀ c, last s = Some c → is_whitespace c = false).

Definition heading_prefix : jsstring := js "Upcoming Buses at ".

(** The bus-times view of a stop has just been swapped in: the address
    carries the stop id and the heading has no button yet. *)
Definition open_stop (stopId text : jsstring) (st : State) : State :=
  set_bus_times_heading
    (Some {| heading_text := text; heading_buttons := [] |})
    (set_location_search [(js "stop_id", stopId)] st).

(** Exactly one of the two icons is displayed, the dark one for the theme
    [dark]. *)
Definition icons_show (theme : jsstring) (d : Document) : Prop :=
  if decide (theme = js "dark")
  then light_icon d = Some (js "none")
       ∧ dark_icon d = Some (js "inline-block")
  else light_icon d = Some (js "inline-block")
       ∧ dark_icon d = Some (js "none").

(** The theme the next click sets. *)
Definition other_theme (t : option jsstring) : jsstring :=
  if decide (t = Some (js "light")) then js "dark" else js "light".

(** A document with every element the script looks for, before the
    listener of [DOMContentLoaded] has run. *)
Definition whole_document (st : State) (dark : bool) : Document :=
  {| page_state := st; data_theme := None;
     light_icon := Some []; dark_icon := Some [];
     theme_toggle := true; prefers_dark := dark;
     stop_name_input := true; stop_id_input := Some [];
     form := true; auto_refresh := true; refreshes := 0;
     listeners := []; favouritesManager := false |}.

(** ** Stop ids the address carries unchanged

    A code unit that the address neither drops, nor takes for the end of
    the parameter or of the query, nor decodes to another: ASCII but tab,
    line feed, carriage return, [#], [%], [&] and [+]. *)
Definition address_char (c : N) : Prop :=
  (c < 128)%N ∧ c ∉ [9; 10; 13; 35; 37; 38; 43]%N.

Definition address_safe (stopId : jsstring) : Prop :=
  Forall address_char stopId ∧ ∀ c, last stopId = Some c → (32 < c)%N.

(** ** What the listener leaves to the manager

    The part of the page only the favourites manager writes. *)
Definition manager_part (st st' : State) : Prop :=
  favourites st' = favourites st
  ∧ favourites_list st' = favourites_list st
  ∧ favourites_section st' = favourites_section st
  ∧ bus_times_heading st' = bus_times_heading st
  ∧ location_search st' = location_search st
  ∧ localStorage st' !! storage_key = localStorage st !! storage_key.

(** The elements the listener needs to get as far as the manager: both
    icons, and the form when both stop inputs are there. *)
Definition reaches_manager (d : Document) : Prop :=
  is_Some (light_icon d) ∧ is_Some (dark_icon d)
  ∧ (stop_name_input d = true → is_Some (stop_id_input d) → form d = true).

(** * The service worker

    The worker's three listeners over the cache storage of the origin.  A
    URL is the text the worker's list gives it, so [/] stands for the page
    without a query.  A cache holds the responses of [GET] requests by
    URL, in the order they were put; the storage holds the caches by name,
    in the order they were opened, no name twice.  The network answers a
    request with a response or not at all ([None]: [fetch] rejects). *)

Record request := {
  request_method : jsstring;
  request_url : jsstring;
}.

Record response := {
  response_ok : bool;          (* a status [addAll] accepts *)
  response_body : jsstring;
}.

Definition GET (url : jsstring) : request :=
  {| request_method := js "GET"; request_url := url |}.

Abbreviation cache := (list (jsstring * response)).
Abbreviation cache_storage := (list (jsstring * cache)).
Abbreviation network := (request → option response).

Definition CACHE_NAME : jsstring := js "next-bus-time-cache-v1".

Definition urlsToCache : list jsstring :=
  [js "/"; js "/static/styles.css"; js "/static/manifest.json";
   js "/static/icons/icon-192x192.png"; js "/static/icons/icon-512x512.png"].

Definition cacheWhitelist : list jsstring := [js "next-bus-time-cache-v1"].

(** [caches.open]: the cache of that name, created when there is none. *)
Definition caches_open (cacheName : jsstring) (cs : cache_storage)
  : cache_storage :=
  match own_get cacheName cs with
  | Some _ => cs
  | None => cs ++ [(cacheName, [])]
  end.

(** [cache.put]: the response takes the place of the one stored for the
    URL. *)
Definition cache_put (url : jsstring) (r : response) (c : cache) : cache :=
  own_delete url c ++ [(url, r)].

(** [cache.addAll]: every URL is fetched; the responses are put when all
    have arrived and every one is accepted, and none is put otherwise. *)
Definition cache_addAll (net : network) (urls : list jsstring) (c : cache)
  : option cache :=
  rs ← mapM (λ url, net (GET url)) urls;
  if forallb response_ok rs
  then Some (foldl (λ c p, cache_put p.1 p.2 c) c (zip urls rs))
  else None.

(** The listener of [install]; the boolean tells whether the promise given
    to [waitUntil] is fulfilled. *)
Definition on_install (net : network) (cs : cache_storage)
  : cache_storage * bool :=
  let cs1 := caches_open CACHE_NAME cs in
  match cache_addAll net urlsToCache (default [] (own_get CACHE_NAME cs1)) with
  | Some c => (own_update CACHE_NAME c cs1, true)
  | None => (cs1, false)
  end.

(** [cache.match] and [caches.match]: the response stored for the URL of a
    [GET] request, in the first cache that has one. *)
Definition cache_match (rq : request) (c : cache) : option response :=
  if decide (request_method rq = js "GET") then own_get (request_url rq) c
  else None.

Fixpoint caches_match (rq : request) (cs : cache_storage) : option response :=
  match cs with
  | [] => None
  | (_, c) :: cs' =>
      match cache_match rq c with
      | Some r => Some r
      | None => caches_match rq cs'
      end
  end.

(** The listener of [fetch]: the response the page gets, [None] when
    [respondWith] is given nothing.  The storage is only read. *)
Definition on_fetch (net : network) (rq : request) (cs : cache_storage)
  : option response :=
  match net rq with
  | Some r => Some r
  | None => caches_match rq cs
  end.

(** The listener of [activate]. *)
Definition on_activate (cs : cache_storage) : cache_storage :=
  foldl (λ cs cacheName,
           if bool_decide (cacheName ∈ cacheWhitelist) then cs
           else own_delete cacheName cs)
    cs cs.*1.

(** * Properties *)

(** ** Own properties *)

Section own_properties_facts.
Context {V : Type}.
Implicit Types (k : jsstring) (v : V) (o : list (jsstring * V)).

Lemma own_get_update k k' v o :
  own_get k' (own_update k v o)
  = if decide (k' = k) then (λ _, v) <$> own_get k o else own_get k' o.
Proof.
  induction o as [|[k0 v0] o IH]; simpl.
  - by case_decide.
  - repeat (case_decide; simplify_eq/=); try done;
      rewrite IH; by rewrite ?decide_True, ?decide_False.
Qed.

Lemma own_get_insert_index n k k' v o :
  own_get k o = None →
  own_get k' (own_insert_index n k v o)
  = if decide (k' = k) then Some v else own_get k' o.
Proof.
  induction o as [|[k0 v0] o IH]; simpl.
  - by case_decide.
  - destruct (decide (k = k0)) as [->|Hk0]; [done|]. intros Hk.
    destruct (array_index k0) as [m|]; [destruct (m <? n)%N|]; simpl;
      try rewrite (IH Hk);
      repeat (case_decide; simplify_eq/=); done.
Qed.

Lemma own_get_app k o1 o2 :
  own_get k (o1 ++ o2)
  = match own_get k o1 with Some v => Some v | None => own_get k o2 end.
Proof.
  induction o1 as [|[k0 v0] o1 IH]; simpl; [done|]. by case_decide.
Qed.

Lemma own_get_insert k k' v o :
  own_get k o = None →
  own_get k' (own_insert k v o)
  = if decide (k' = k) then Some v else own_get k' o.
Proof.
  intros Hk. unfold own_insert. destruct (array_index k).
  - by apply own_get_insert_index.
  - rewrite own_get_app. simpl.
    case_decide; simplify_eq/=; [by rewrite Hk|by destruct (own_get k' o)].
Qed.

Lemma own_get_delete k k' o :
  own_get k' (own_delete k o)
  = if decide (k' = k) then None else own_get k' o.
Proof.
  induction o as [|[k0 v0] o IH]; simpl.
  - by case_decide.
  - repeat (case_decide; simplify_eq/=); try done;
      rewrite IH; by rewrite ?decide_True, ?decide_False.
Qed.

Lemma own_delete_absent k o : own_get k o = None → own_delete k o = o.
Proof.
  induction o as [|[k0 v0] o IH]; simpl; [done|].
  destruct (decide (k = k0)); [done|]. intros ?. by rewrite IH.
Qed.

Lemma own_delete_insert_index n k v o :
  own_get k o = None → own_delete k (own_insert_index n k v o) = o.
Proof.
  induction o as [|[k0 v0] o IH]; simpl.
  - by rewrite decide_True.
  - destruct (decide (k = k0)); [done|]. intros Hk.
    destruct (array_index k0) as [m|]; [destruct (m <? n)%N|]; simpl.
    + rewrite decide_False by done. by rewrite IH.
    + rewrite decide_True by done. rewrite decide_False by done.
      by rewrite own_delete_absent.
    + rewrite decide_True by done. rewrite decide_False by done.
      by rewrite own_delete_absent.
Qed.

Lemma own_delete_app k o1 o2 :
  own_delete k (o1 ++ o2) = own_delete k o1 ++ own_delete k o2.
Proof.
  induction o1 as [|[k0 v0] o1 IH]; simpl; [done|].
  case_decide; [done|]. by rewrite IH.
Qed.

Lemma own_delete_insert k v o :
  own_get k o = None → own_delete k (own_insert k v o) = o.
Proof.
  intros Hk. unfold own_insert. destruct (array_index k).
  - by apply own_delete_insert_index.
  - rewrite own_delete_app, own_delete_absent by done. simpl.
    rewrite decide_True by done. by rewrite app_nil_r.
Qed.
End own_properties_facts.

(** ** The order of own properties *)

(** Array indices are canonical numerals: a number has one. *)

Example array_index_examples :
  array_index
  <$> (js <$> ["0"; "7"; "101"; "007"; "4294967294"; "4294967295"; "1e3";
               "-1"; "a1"]%string)
  = [Some 0; Some 7; Some 101; None; Some 4294967294; None; None; None;
     None]%N.
Proof. by vm_compute. Qed.

Lemma decimal_value_snoc acc k c :
  decimal_value acc (k ++ [c])
  = n ← decimal_value acc k;
    if is_digit c then Some (10 * n + (c - 48))%N else None.
Proof.
  revert acc. induction k as [|d k IH]; intros acc; simpl.
  - by destruct (is_digit c).
  - destruct (is_digit d); [apply IH|done].
Qed.

Lemma decimal_value_ge acc k n : decimal_value acc k = Some n → (acc ≤ n)%N.
Proof.
  revert acc. induction k as [|d k IH]; intros acc; simpl.
  - intros [= ->]. lia.
  - destruct (is_digit d); [|done]. intros H%IH. lia.
Qed.

Lemma is_digit_spec c : is_digit c = true ↔ (48 ≤ c ≤ 57)%N.
Proof. unfold is_digit. rewrite andb_true_iff, !N.leb_le. done. Qed.

Lemma decimal_value_pos k n :
  k ≠ [] → no_leading_zero k → decimal_value 0 k = Some n → (0 < n)%N.
Proof.
  destruct k as [|c k]; [done|]. simpl. intros _ Hc.
  destruct (is_digit c) eqn:Hd; [|done]. apply is_digit_spec in Hd.
  intros H%decimal_value_ge. lia.
Qed.

Lemma no_leading_zero_snoc k c :
  no_leading_zero (k ++ [c]) → k ≠ [] → no_leading_zero k.
Proof. by destruct k. Qed.

Lemma decimal_value_inj k1 k2 n :
  no_leading_zero k1 → no_leading_zero k2 →
  decimal_value 0 k1 = Some n → decimal_value 0 k2 = Some n → k1 = k2.
Proof.
  revert k2 n. induction k1 as [|c1 k1 IH] using rev_ind; intros k2 n Hz1 Hz2.
  - intros [= <-] H2. destruct k2 as [|c2 k2]; [done|].
    apply decimal_value_pos in H2; [lia|done|done].
  - destruct k2 as [|c2 k2 _] using rev_ind.
    { intros H1 [= <-]. apply decimal_value_pos in H1; [lia| |done].
      by destruct k1. }
    rewrite !decimal_value_snoc.
    destruct (decimal_value 0 k1) as [a1|] eqn:H1; [|done].
    destruct (decimal_value 0 k2) as [a2|] eqn:H2; [|done]. simpl.
    destruct (is_digit c1) eqn:Hd1; [|done].
    destruct (is_digit c2) eqn:Hd2; [|done].
    apply is_digit_spec in Hd1, Hd2. intros [= <-] [= Heq].
    assert (a1 = a2 ∧ c1 = c2) as [<- <-] by lia.
    f_equal. destruct (decide (k1 = [])) as [->|Hk1].
    + destruct k2 as [|d k2]; [done|]. injection H1 as <-.
      apply decimal_value_pos in H2; [lia|done|done].
    + destruct (decide (k2 = [])) as [->|Hk2].
      * injection H2 as <-. apply decimal_value_pos in H1; [lia|done|].
        by eapply no_leading_zero_snoc.
      * eapply IH; eauto using no_leading_zero_snoc.
Qed.

Lemma array_index_inj k1 k2 n :
  array_index k1 = Some n → array_index k2 = Some n → k1 = k2.
Proof.
  assert (∀ k m, array_index k = Some m →
            (k = [48%N] ∧ m = 0%N)
            ∨ (k ≠ [] ∧ no_leading_zero k ∧ decimal_value 0 k = Some m)) as H.
  { intros [|c k] m; [done|]. unfold array_index.
    case_decide as Hc.
    - destruct k; [|done]. intros [= <-]. left. by rewrite Hc.
    - destruct (decimal_value 0 (c :: k)) as [m'|]; [|done].
      destruct (m' <? 4294967295)%N; [|done]. intros [= <-]. by right. }
  intros [[-> ->]|(Hn1 & Hz1 & H1)]%H [[-> Hn]|(Hn2 & Hz2 & H2)]%H; try done.
  - apply decimal_value_pos in H2; [lia|done|done].
  - subst n. apply decimal_value_pos in H1; [lia|done|done].
  - by eapply decimal_value_inj.
Qed.

(** A key that may come after all the keys of an object is added at the
    end. *)

Section canonical_facts.
Context {V : Type}.
Implicit Types (k : jsstring) (v : V) (o : list (jsstring * V)).

Lemma own_get_None k o : own_get k o = None ↔ k ∉ o.*1.
Proof.
  induction o as [|[k0 v0] o IH]; simpl.
  - split; [intros _; apply not_elem_of_nil|done].
  - rewrite not_elem_of_cons, <-IH.
    destruct (decide (k = k0)); [|tauto].
    split; [done|]. by intros [? _].
Qed.

Lemma own_insert_index_last n k v o :
  array_index k = Some n →
  Forall (λ k0, key_before k0 k) o.*1 →
  own_insert_index n k v o = o ++ [(k, v)].
Proof.
  intros Hk. induction o as [|[k0 v0] o IH]; simpl; [done|].
  intros [[_ Hb] Ho]%Forall_cons. rewrite Hk in Hb.
  destruct (array_index k0) as [m|]; [|done].
  apply N.ltb_lt in Hb as ->. by rewrite IH.
Qed.

Lemma own_insert_last k v o :
  Forall (λ k0, key_before k0 k) o.*1 → own_insert k v o = o ++ [(k, v)].
Proof.
  intros Ho. unfold own_insert. destruct (array_index k) eqn:Hk; [|done].
  by apply own_insert_index_last.
Qed.

Lemma create_data_property_last k v o :
  Forall (λ k0, key_before k0 k) o.*1 →
  create_data_property k v o = o ++ [(k, v)].
Proof.
  intros Ho. unfold create_data_property.
  assert (own_get k o = None) as ->.
  { apply own_get_None. intros Hin.
    rewrite Forall_forall in Ho. by destruct (Ho _ Hin). }
  by apply own_insert_last.
Qed.
End canonical_facts.

(** Deleting, overwriting and adding an own property keep the order. *)

Section canonical_preserved.
Context {V : Type}.
Implicit Types (k : jsstring) (v : V) (o : list (jsstring * V)).

Lemma own_delete_keys_Forall (P : jsstring → Prop) k o :
  Forall P o.*1 → Forall P (own_delete k o).*1.
Proof.
  induction o as [|[k0 v0] o IH]; simpl; [done|].
  intros [? ?]%Forall_cons. case_decide; [by apply IH|].
  rewrite fmap_cons. apply Forall_cons. split; [done|by apply IH].
Qed.

Lemma canonical_delete k o : canonical o → canonical (own_delete k o).
Proof.
  unfold canonical. induction o as [|[k0 v0] o IH]; simpl; [done|].
  intros [Hk0 Ho]%StronglySorted_cons. case_decide; [by apply IH|].
  rewrite fmap_cons. apply StronglySorted_cons.
  split; [by apply own_delete_keys_Forall|by apply IH].
Qed.

Lemma own_update_keys k v o : (own_update k v o).*1 = o.*1.
Proof.
  induction o as [|[k0 v0] o IH]; simpl; [done|].
  case_decide; [done|]. by rewrite fmap_cons, IH.
Qed.

Lemma own_insert_index_keys_Forall (P : jsstring → Prop) n k v o :
  P k → Forall P o.*1 → Forall P (own_insert_index n k v o).*1.
Proof.
  intros Hk. induction o as [|[k0 v0] o IH]; simpl.
  - intros _. by apply Forall_singleton.
  - intros [? ?]%Forall_cons.
    destruct (array_index k0) as [m|]; [destruct (m <? n)%N|];
      rewrite ?fmap_cons; repeat (apply Forall_cons; split); auto.
Qed.

Lemma canonical_insert_index n k v o :
  array_index k = Some n → k ∉ o.*1 →
  canonical o → canonical (own_insert_index n k v o).
Proof.
  intros Hk. unfold canonical.
  induction o as [|[k0 v0] o IH]; simpl.
  - intros _ _. apply StronglySorted_cons. split; [done|constructor].
  - intros [Hne Hnot]%not_elem_of_cons [Hk0 Ho]%StronglySorted_cons.
    assert (Forall (key_before k) (k0 :: o.*1) →
            StronglySorted key_before (k :: k0 :: o.*1)) as Hfront.
    { intros ?. apply StronglySorted_cons. split; [done|].
      by apply StronglySorted_cons. }
    destruct (array_index k0) as [m|] eqn:Hm; [destruct (m <? n)%N eqn:Hlt|].
    + rewrite fmap_cons. apply StronglySorted_cons. split; [|by apply IH].
      apply own_insert_index_keys_Forall; [|done].
      split; [done|]. cbn [fst]. rewrite Hk, Hm. by apply N.ltb_lt.
    + apply Hfront, Forall_cons. apply N.ltb_ge in Hlt. split.
      * split; [done|]. rewrite Hm, Hk.
        assert (m ≠ n); [|lia].
        intros ->. apply Hne. by eapply array_index_inj.
      * apply Forall_forall. intros k' Hin.
        destruct (proj1 (Forall_forall _ _) Hk0 k' Hin) as [_ Hb].
        split; [by intros ->|].
        rewrite Hk. rewrite Hm in Hb.
        destruct (array_index k'); [lia|done].
    + apply Hfront, Forall_cons. split.
      * split; [done|]. by rewrite Hm.
      * apply Forall_forall. intros k' Hin.
        destruct (proj1 (Forall_forall _ _) Hk0 k' Hin) as [_ Hb].
        split; [by intros ->|].
        rewrite Hm in Hb. by destruct (array_index k').
Qed.

Lemma canonical_insert k v o :
  own_get k o = None → canonical o → canonical (own_insert k v o).
Proof.
  intros Hk%own_get_None Ho. unfold own_insert.
  destruct (array_index k) as [n|] eqn:Hn.
  - by apply canonical_insert_index.
  - unfold canonical. rewrite fmap_app. apply StronglySorted_app.
    split; [|split; [done|]].
    + intros k1 k2 H1 ->%list_elem_of_singleton.
      split; [by intros ->|]. cbn [fst]. by rewrite Hn.
    + apply StronglySorted_cons. split; [done|constructor].
Qed.
End canonical_preserved.

Lemma canonical_obj_set (f : favourites_object) k v :
  canonical f → canonical (obj_set f k v).
Proof.
  intros Hf. unfold obj_set. destruct (own_get k f) eqn:Hk.
  - unfold canonical. by rewrite own_update_keys.
  - case_decide; [done|]. by apply canonical_insert.
Qed.

(** ** [JSON.parse] reads back what [JSON.stringify] wrote *)

Lemma hex_value_hex_digit (d : N) :
  (d < 16)%N → hex_value (hex_digit d) = Some d.
Proof.
  intros H.
  assert (d ∈ (N.of_nat <$> seq 0 16)) as Hin.
  { apply list_elem_of_fmap. exists (N.to_nat d).
    split; [lia|]. apply elem_of_seq. lia. }
  cbn in Hin.
  repeat (apply elem_of_cons in Hin as [->|Hin]; [by vm_compute|]).
  by apply elem_of_nil in Hin.
Qed.

Lemma hex_digits_value (c : N) :
  (c < 65536)%N →
  (16 * (16 * (16 * (16 * 0 + (c / 4096) `mod` 16) + (c / 256) `mod` 16)
         + (c / 16) `mod` 16) + c `mod` 16)%N = c.
Proof.
  intros H.
  pose proof (N.Div0.div_mod c 16) as H0.
  pose proof (N.Div0.div_mod (c / 16) 16) as H1.
  pose proof (N.Div0.div_mod (c / 256) 16) as H2.
  replace (c / 16 / 16)%N with (c / 256)%N in H1
    by (by rewrite N.Div0.div_div).
  replace (c / 256 / 16)%N with (c / 4096)%N in H2
    by (by rewrite N.Div0.div_div).
  assert (c / 4096 < 16)%N as H3 by (apply N.Div0.div_lt_upper_bound; lia).
  rewrite (N.mod_small (c / 4096) 16) by done.
  lia.
Qed.

Lemma run_app st t1 t2 :
  run st (t1 ++ t2) = run st t1 ≫= λ st', run st' t2.
Proof.
  revert st. induction t1 as [|c t1 IH]; intros st; simpl; [done|].
  destruct (step st c); simpl; [apply IH|done].
Qed.

Lemma step_hex acc count code stack c d :
  hex_value c = Some d →
  step (MHex acc count code, stack) c
  = Some (if decide (count = 3) then MString ((16 * code + d)%N :: acc)
          else MHex acc (S count) (16 * code + d)%N, stack).
Proof. intros H. simpl. rewrite H. by case_decide. Qed.

Lemma run_unicode_escape c acc stack :
  (c < 65536)%N →
  run (MString acc, stack) (unicode_escape c) = Some (MString (c :: acc), stack).
Proof.
  intros Hc. unfold unicode_escape.
  assert (∀ n, (n `mod` 16 < 16)%N) as Hm
    by (intros; by apply N.mod_upper_bound).
  change (run (MString acc, stack) (92%N :: 117%N :: ?t))
    with (run (MHex acc 0 0%N, stack) t).
  cbn [run].
  do 3 (rewrite (step_hex _ _ _ _ _ _ (hex_value_hex_digit _ (Hm _))),
          decide_False by done; cbn [mbind option_bind]).
  rewrite (step_hex _ _ _ _ _ _ (hex_value_hex_digit _ (Hm _))),
    decide_True by done. cbn [mbind option_bind].
  by rewrite hex_digits_value.
Qed.

Lemma step_string_literal c acc stack :
  c ≠ 34%N → c ≠ 92%N → (c <? 32)%N = false →
  step (MString acc, stack) c = Some (MString (c :: acc), stack).
Proof.
  intros H1 H2 H3. cbn [step]. rewrite !decide_False by done. by rewrite H3.
Qed.

Lemma run_quote_chars s acc stack :
  run (MString acc, stack) (quote_chars s)
  = Some (MString (reverse s ++ acc), stack).
Proof.
  remember (length s) as n eqn:Hn. revert s acc Hn.
  induction (lt_wf n) as [n _ IH]. intros s acc ->.
  destruct s as [|c s]; [done|].
  assert (∀ acc', run (MString acc', stack) (quote_chars s)
                  = Some (MString (reverse s ++ acc'), stack)) as IHs.
  { intros acc'. eapply IH; [|done]. simpl. lia. }
  rewrite reverse_cons, <-(assoc_L (++)). change ([c] ++ acc) with (c :: acc).
  cbn [quote_chars].
  assert (∀ e, run (MString acc, stack) (e ++ quote_chars s)
               = run (MString acc, stack) e ≫= λ st', run st' (quote_chars s))
    as Happ by (intros; apply run_app).
  repeat (case_decide; [subst c; rewrite Happ; by apply IHs|]).
  destruct (c <? 32)%N eqn:H32.
  { apply N.ltb_lt in H32.
    rewrite Happ, run_unicode_escape by lia. by apply IHs. }
  destruct (is_high_surrogate c) eqn:Hh.
  { unfold is_high_surrogate in Hh.
    apply andb_prop in Hh as [Hh1%N.leb_le Hh2%N.leb_le].
    destruct s as [|d s'].
    - by rewrite run_unicode_escape by lia.
    - destruct (is_low_surrogate d) eqn:Hl.
      + unfold is_low_surrogate in Hl.
        apply andb_prop in Hl as [Hl1%N.leb_le Hl2%N.leb_le].
        cbn [run]. rewrite step_string_literal by done.
        cbn [mbind option_bind].
        rewrite step_string_literal by (try apply N.ltb_ge; lia).
        cbn [mbind option_bind].
        rewrite (IH (length s')) by (done || simpl; lia).
        by rewrite reverse_cons, <-!(assoc_L (++)).
      + rewrite Happ, run_unicode_escape by lia. by apply IHs. }
  destruct (is_low_surrogate c) eqn:Hl.
  { unfold is_low_surrogate in Hl.
    apply andb_prop in Hl as [Hl1%N.leb_le Hl2%N.leb_le].
    rewrite Happ, run_unicode_escape by lia. by apply IHs. }
  cbn [run]. rewrite step_string_literal by done. by apply IHs.
Qed.

Lemma run_key k b props stack :
  run (MKey b, FObject props :: stack) (QuoteJSONString k)
  = Some (MColon, FMember props k :: stack).
Proof.
  unfold QuoteJSONString. cbn [app run].
  change (step (MKey b, FObject props :: stack) 34%N)
    with (Some (MString [], FObject props :: stack)).
  cbn [mbind option_bind]. rewrite run_app, run_quote_chars.
  cbn [mbind option_bind run step]. rewrite decide_True by done.
  cbn [mbind option_bind]. by rewrite app_nil_r, reverse_involutive.
Qed.

Lemma run_string_value s props k stack :
  run (MValue false, FMember props k :: stack) (QuoteJSONString s)
  = Some (MAfter, FObject (create_data_property k (VString s) props) :: stack).
Proof.
  unfold QuoteJSONString. cbn [app run].
  change (step (MValue false, FMember props k :: stack) 34%N)
    with (Some (MString [], FMember props k :: stack)).
  cbn [mbind option_bind]. rewrite run_app, run_quote_chars.
  cbn [mbind option_bind run step]. rewrite decide_True by done.
  cbn [complete_value mbind option_bind].
  by rewrite app_nil_r, reverse_involutive.
Qed.

Lemma run_member p b props stack :
  run (MKey b, FObject props :: stack) (member p)
  = Some (MAfter, FObject (add_member props p) :: stack).
Proof.
  unfold member. rewrite run_app, run_key. cbn [mbind option_bind].
  rewrite run_app. cbn [run].
  change (step (MColon, FMember props p.1 :: stack) 58%N)
    with (Some (MValue false, FMember props p.1 :: stack)).
  cbn [mbind option_bind]. by rewrite run_string_value.
Qed.

Lemma run_members ps p b props stack :
  run (MKey b, FObject props :: stack)
    (join_members (member p :: (member <$> ps)))
  = Some (MAfter, FObject (foldl add_member props (p :: ps)) :: stack).
Proof.
  revert p b props. induction ps as [|q ps IH]; intros p b props.
  - apply run_member.
  - rewrite fmap_cons.
    change (join_members (member p :: member q :: (member <$> ps)))
      with (member p ++ [44%N]
            ++ join_members (member q :: (member <$> ps))).
    rewrite run_app, run_member. cbn [mbind option_bind].
    rewrite run_app. cbn [run].
    change (step (MAfter, FObject (add_member props p) :: stack) 44%N)
      with (Some (MKey false, FObject (add_member props p) :: stack)).
    cbn [mbind option_bind]. by rewrite IH.
Qed.

Lemma JSON_parse_stringify (f : favourites_object) :
  JSON_parse (JSON_stringify f) = Normal (VObject (foldl add_member [] f)).
Proof.
  unfold JSON_parse, JSON_stringify, Object_entries.
  cbn [app run].
  change (step (MValue false, []) 123%N) with (Some (MKey true, [FObject []])).
  cbn [mbind option_bind]. rewrite run_app.
  destruct f as [|p ps].
  - done.
  - rewrite fmap_cons, run_members. done.
Qed.

(** For a list in the order of an object, the members build the list itself. *)
Lemma foldl_add_member_canonical (done rest : favourites_object) :
  canonical (done ++ rest) →
  foldl add_member (to_value <$> done) rest = to_value <$> (done ++ rest).
Proof.
  revert done. induction rest as [|[k v] rest IH]; intros done Hc.
  - by rewrite app_nil_r.
  - cbn [foldl]. unfold add_member at 2. cbn [fst snd].
    rewrite create_data_property_last.
    + change [(k, VString v)] with (to_value <$> [(k, v)]).
      rewrite <-fmap_app, IH; rewrite <-(assoc_L (++)); done.
    + unfold canonical in Hc. rewrite fmap_app, fmap_cons in Hc.
      apply StronglySorted_app in Hc as (Hc & _ & _).
      apply Forall_forall. intros k0 Hk0.
      rewrite <-list_fmap_compose in Hk0.
      apply Hc; [done|by left].
Qed.

Lemma JSON_parse_stringify_canonical (f : favourites_object) :
  canonical f →
  JSON_parse (JSON_stringify f) = Normal (favourites_value f).
Proof.
  intros Hc. rewrite JSON_parse_stringify.
  unfold favourites_value.
  do 2 f_equal. exact (foldl_add_member_canonical [] f Hc).
Qed.

(** ** What each method leaves alone *)

Lemma renderFavourites_favourites st :
  favourites (renderFavourites st) = favourites st.
Proof.
  unfold renderFavourites.
  destruct (favourites_list st); simpl; [|done].
  by destruct (favourites_section st).
Qed.

Lemma renderFavourites_localStorage st :
  localStorage (renderFavourites st) = localStorage st.
Proof.
  unfold renderFavourites.
  destruct (favourites_list st); simpl; [|done].
  by destruct (favourites_section st).
Qed.

(** The favourites object after a toggle. *)
Lemma toggleFavourite_favourites stopId stopName st :
  favourites (toggleFavourite stopId stopName st)
  = if truthy (obj_get (favourites st) stopId)
    then own_delete stopId (favourites st)
    else obj_set (favourites st) stopId stopName.
Proof.
  unfold toggleFavourite. simpl. by rewrite renderFavourites_favourites.
Qed.

Lemma toggleFavourite_localStorage stopId stopName st :
  localStorage (toggleFavourite stopId stopName st)
  = <[storage_key :=
        JSON_stringify (favourites (toggleFavourite stopId stopName st))]>
      (localStorage st).
Proof.
  rewrite toggleFavourite_favourites. unfold toggleFavourite. simpl.
  by rewrite renderFavourites_localStorage.
Qed.

Lemma toggleFavourite_favourites_list stopId stopName st :
  is_Some (favourites_list st) →
  is_Some (favourites_list (toggleFavourite stopId stopName st)).
Proof.
  intros [l Hl]. unfold toggleFavourite, renderFavourites. simpl.
  rewrite Hl. by destruct (favourites_section st).
Qed.

Lemma Object_keys_length (f : favourites_object) :
  length (Object_keys f) = 0 ↔ f = [].
Proof. unfold Object_keys. by destruct f. Qed.

(** After a toggle on a page that has the list and the section, the
    section's display follows the favourites object. *)
Lemma toggleFavourite_favourites_section stopId stopName st :
  is_Some (favourites_list st) →
  is_Some (favourites_section st) →
  favourites_section (toggleFavourite stopId stopName st)
  = Some (if decide (favourites (toggleFavourite stopId stopName st) = [])
          then js "none" else js "block").
Proof.
  intros [l Hl] [d Hd]. rewrite toggleFavourite_favourites.
  unfold toggleFavourite, renderFavourites. simpl. rewrite Hl. simpl.
  rewrite Hd. simpl. f_equal.
  repeat case_decide; try done; exfalso;
    match goal with
    | H : length _ = 0 |- _ => apply Object_keys_length in H; done
    | H : _ = [] |- _ => apply Object_keys_length in H; done
    end.
Qed.

(** ** The examples of the specification *)

(** From an empty set, a toggle of stop 101 gives the set of that one stop,
    stored as such, the section displayed and one card with the name; the
    second toggle gives the empty set, the section hidden and no card. *)
Example toggle_main_st_station :
  let st1 := toggleFavourite (js "101") (js "Main St Station") (page [] None) in
  let st2 := toggleFavourite (js "101") (js "Main St Station") st1 in
  favourites st1 = [(js "101", js "Main St Station")]
  ∧ localStorage st1 !! storage_key
    = Some ([123%N] ++ quoted (js "101") ++ [58%N]
            ++ quoted (js "Main St Station") ++ [125%N])
  ∧ favourites_section st1 = Some (js "block")
  ∧ displayed_name <$> rendered_cards st1 = [Some (js "Main St Station")]
  ∧ favourites st2 = []
  ∧ localStorage st2 !! storage_key = Some (js "{}")
  ∧ favourites_section st2 = Some (js "none")
  ∧ rendered_cards st2 = [].
Proof. by vm_compute. Qed.

(** The name the binder takes from the heading. *)
Example binder_stop_name :
  let st := show_bus_times (js "101")
              (js "Upcoming Buses at Main St Station") (page [] None) in
  button_click <$> heading_toggle_controls st
  = [Some (js "101", js "Main St Station")].
Proof. by vm_compute. Qed.

(** A heading that holds nothing after the prefix gives the empty name. *)
Example binder_empty_stop_name :
  let st := show_bus_times (js "101") (js "Upcoming Buses at ") (page [] None) in
  button_click <$> heading_toggle_controls st = [Some (js "101", [])].
Proof. by vm_compute. Qed.

(** ** Loading *)

(** C1, as the code has it: [loadFavourites] gives the empty object when
    nothing is stored under the key or the stored string is empty; for any
    other stored string it gives what [JSON.parse] gives, the parsed value
    when the string is valid JSON and otherwise the [SyntaxError], which is
    not caught. *)
Theorem loadFavourites_spec (st : State) :
  (localStorage st !! storage_key = None →
   loadFavourites st = Normal (VObject []))
  ∧ (localStorage st !! storage_key = Some [] →
     loadFavourites st = Normal (VObject []))
  ∧ (∀ stored v,
       localStorage st !! storage_key = Some stored → stored ≠ [] →
       JSON_parse stored = Normal v → loadFavourites st = Normal v)
  ∧ (∀ stored e,
       localStorage st !! storage_key = Some stored → stored ≠ [] →
       JSON_parse stored = Throw e → loadFavourites st = Throw e).
Proof.
  unfold loadFavourites. repeat split.
  - by intros ->.
  - by intros ->.
  - intros stored v -> Hne <-. by destruct stored.
  - intros stored e -> Hne <-. by destruct stored.
Qed.

(** C1, at a stored value that is not JSON: with [not json] under the key,
    [loadFavourites] raises a [SyntaxError] and returns no empty object. *)
Lemma loadFavourites_not_json :
  loadFavourites (page [] (Some (js "not json"))) = Throw SyntaxError
  ∧ loadFavourites (page [] (Some (js "not json"))) ≠ Normal (VObject []).
Proof. split; [by vm_compute|]. by vm_compute. Qed.

(** The empty string is not JSON either, yet it is never parsed. *)
Example JSON_parse_empty : JSON_parse [] = Throw SyntaxError.
Proof. reflexivity. Qed.

Example loadFavourites_king_st :
  loadFavourites
    (page [] (Some ([123%N] ++ quoted (js "5") ++ [58%N]
                    ++ quoted (js "King St") ++ [125%N])))
  = Normal (VObject [(js "5", VString (js "King St"))]).
Proof. by vm_compute. Qed.

(** ** Toggling *)

(** C3, at a stop name that is the empty string: the first toggle adds the
    stop, the second one does not remove it, and the set is not back to what
    it was. *)
Lemma toggle_twice_empty_name :
  let st := page [] None in
  let st1 := toggleFavourite (js "101") [] st in
  let st2 := toggleFavourite (js "101") [] st1 in
  favourites st1 = [(js "101", [])]
  ∧ favourites st2 = [(js "101", [])]
  ∧ favourites st2 ≠ favourites st.
Proof. by vm_compute. Qed.

(** C4, at an entry whose stored name is the empty string (the state after
    [toggleFavourite("5", "")] on an empty set): the entry is present, and
    the toggle overwrites it instead of removing it. *)
Lemma toggle_present_empty_name :
  let st := toggleFavourite (js "5") [] (page [] None) in
  own_get (js "5") (favourites st) = Some []
  ∧ favourites (toggleFavourite (js "5") (js "King St") st)
    = [(js "5", js "King St")].
Proof. by vm_compute. Qed.

(** The same test reads inherited properties: a stop id that is a property
    name of [Object.prototype] is never added. *)
Example toggle_inherited_name :
  favourites (toggleFavourite (js "constructor") (js "King St") (page [] None))
  = [].
Proof. by vm_compute. Qed.

(** C9: a toggle of [x] leaves every other stop [y] as it was, whether it
    is in the set and under which name. *)
Theorem toggleFavourite_frame (st : State) (x y stopName : jsstring) :
  x ≠ y →
  own_get y (favourites (toggleFavourite x stopName st))
  = own_get y (favourites st).
Proof.
  intros Hxy. rewrite toggleFavourite_favourites.
  destruct (truthy _).
  - rewrite own_get_delete. by rewrite decide_False.
  - unfold obj_set. destruct (own_get x (favourites st)) eqn:Hx.
    + rewrite own_get_update. by rewrite decide_False.
    + case_decide; [done|]. rewrite own_get_insert by done.
      by rewrite decide_False.
Qed.

Lemma toggleFavourite_frame_witness :
  js "5" ≠ js "7"
  ∧ own_get (js "7")
      (favourites
         (toggleFavourite (js "5") (js "King St")
            (page [(js "7", js "Queen St")] None)))
    = own_get (js "7") (favourites (page [(js "7", js "Queen St")] None)).
Proof.
  split; [by vm_compute|].
  apply (toggleFavourite_frame (page [(js "7", js "Queen St")] None)).
  by vm_compute.
Defined.

(** ** Persisting *)

(** C7: after a toggle the value stored under the key is the serialization
    of the whole favourites object as it is in memory after that toggle. *)
Theorem toggleFavourite_persists (st : State) (stopId stopName : jsstring) :
  localStorage (toggleFavourite stopId stopName st) !! storage_key
  = Some (JSON_stringify (favourites (toggleFavourite stopId stopName st))).
Proof. rewrite toggleFavourite_localStorage. apply lookup_insert_eq. Qed.

Lemma toggleFavourite_canonical st x stopName :
  canonical (favourites st) →
  canonical (favourites (toggleFavourite x stopName st)).
Proof.
  intros Hf. rewrite toggleFavourite_favourites.
  destruct (truthy _); [by apply canonical_delete|by apply canonical_obj_set].
Qed.

Lemma JSON_stringify_not_empty f : is_empty (JSON_stringify f) = false.
Proof. done. Qed.

(** X5: after a toggle, [loadFavourites] would read back from the store
    the favourites object as it is in memory; the order of own properties is
    that of an object, before and after. *)
Theorem toggleFavourite_load (st : State) (x stopName : jsstring) :
  canonical (favourites st) →
  canonical (favourites (toggleFavourite x stopName st))
  ∧ loadFavourites (toggleFavourite x stopName st)
    = Normal (favourites_value (favourites (toggleFavourite x stopName st))).
Proof.
  intros Hf. pose proof (toggleFavourite_canonical st x stopName Hf) as Hf'.
  split; [done|]. unfold loadFavourites.
  rewrite toggleFavourite_localStorage, lookup_insert_eq.
  rewrite JSON_stringify_not_empty.
  by apply JSON_parse_stringify_canonical.
Qed.

Lemma toggleFavourite_load_witness :
  let st := page [(js "7", js "Queen St")] None in
  canonical (favourites st)
  ∧ canonical (favourites (toggleFavourite (js "5") (js "King St") st))
  ∧ loadFavourites (toggleFavourite (js "5") (js "King St") st)
    = Normal
        (favourites_value
           (favourites (toggleFavourite (js "5") (js "King St") st))).
Proof.
  assert (canonical (favourites (page [(js "7", js "Queen St")] None))) as H.
  { apply StronglySorted_cons. split; [done|constructor]. }
  split; [exact H|].
  exact (toggleFavourite_load (page [(js "7", js "Queen St")] None)
           (js "5") (js "King St") H).
Defined.

(** ** Rendering *)

(** C5: on a page that has the favourites list and section, after any
    non-empty sequence of toggles, from any favourites object, the section is
    displayed exactly when the favourites object has an entry. *)
Theorem section_visible_iff_nonempty
    (ops : list (jsstring * jsstring)) (st : State) :
  is_Some (favourites_list st) →
  is_Some (favourites_section st) →
  ops ≠ [] →
  (section_visible (toggle_all ops st) ↔ favourites (toggle_all ops st) ≠ [])
  ∧ (favourites_section (toggle_all ops st) = Some (js "none")
     ↔ favourites (toggle_all ops st) = []).
Proof.
  revert st. induction ops as [|[x n] ops IH]; intros st Hl Hs Hne; [done|].
  cbn [toggle_all]. destruct ops as [|op ops'].
  - cbn [toggle_all]. unfold section_visible.
    rewrite toggleFavourite_favourites_section by done.
    case_decide; split; split; intros; simplify_eq; done.
  - apply IH; [by apply toggleFavourite_favourites_list | | done].
    rewrite toggleFavourite_favourites_section by done. by eexists.
Qed.

Lemma section_visible_iff_nonempty_witness :
  let ops := [(js "101", js "Main St Station");
              (js "101", js "Main St Station")] in
  let st := page [] None in
  is_Some (favourites_list st)
  ∧ is_Some (favourites_section st)
  ∧ ops ≠ []
  ∧ ((section_visible (toggle_all ops st) ↔ favourites (toggle_all ops st) ≠ [])
     ∧ (favourites_section (toggle_all ops st) = Some (js "none")
        ↔ favourites (toggle_all ops st) = [])).
Proof.
  split; [by eexists|]. split; [by eexists|]. split; [done|].
  apply (section_visible_iff_nonempty
           [(js "101", js "Main St Station");
            (js "101", js "Main St Station")] (page [] None));
    [by eexists | by eexists | done].
Defined.

(** C6, at a stop name that holds markup: one card is rendered for the one
    entry, but the name it displays is not the stored name. *)
Lemma render_markup_name :
  let stored := js "<b>King</b> St" in
  let st := toggleFavourite (js "5") stored (page [] None) in
  favourites (renderFavourites st) = [(js "5", stored)]
  ∧ displayed_name <$> rendered_cards (renderFavourites st)
    = [Some (js "King St")]
  ∧ js "King St" ≠ stored.
Proof. by vm_compute. Qed.

(** C8: without the favourites list [renderFavourites] changes nothing, and
    without the bus-times heading [addFavouriteButtonToBusTimes] changes
    nothing; neither raises an error. *)
Theorem absent_element_no_op (st : State) :
  (favourites_list st = None → renderFavourites st = st)
  ∧ (bus_times_heading st = None → addFavouriteButtonToBusTimes st = st).
Proof.
  split; intros H.
  - unfold renderFavourites. by rewrite H.
  - unfold addFavouriteButtonToBusTimes. by rewrite H.
Qed.

(** ** Binding the button *)

(** C10: when the address has no [stop_id] parameter the binder changes
    nothing: no button is added, and the favourites object and the rest of
    the page stay as they were. *)
Theorem binder_without_stop_id (st : State) :
  URLSearchParams_get (js "stop_id") (location_search st) = None →
  addFavouriteButtonToBusTimes st = st.
Proof.
  intros H. unfold addFavouriteButtonToBusTimes.
  destruct (bus_times_heading st); [|done]. by rewrite H.
Qed.

Lemma binder_without_stop_id_witness :
  let st :=
    {| favourites := [(js "5", js "King St")];
       localStorage := ∅;
       location_search := [(js "theme", js "dark")];
       favourites_list := Some [];
       favourites_section := Some (js "none");
       bus_times_heading :=
         Some {| heading_text := js "Upcoming Buses at King St";
                 heading_buttons := [] |} |} in
  URLSearchParams_get (js "stop_id") (location_search st) = None
  ∧ addFavouriteButtonToBusTimes st = st.
Proof.
  split; [by vm_compute|].
  apply (binder_without_stop_id
           {| favourites := [(js "5", js "King St")];
              localStorage := ∅;
              location_search := [(js "theme", js "dark")];
              favourites_list := Some [];
              favourites_section := Some (js "none");
              bus_times_heading :=
                Some {| heading_text := js "Upcoming Buses at King St";
                        heading_buttons := [] |} |}).
  by vm_compute.
Defined.

(** C2, with one favourite on the page: the card of stop 5 holds a button of
    class [favourite-button], so when the view of stop 101 is swapped in the
    binder finds that button and adds none to the heading. *)
Lemma binder_omits_button_beside_a_card :
  let st := toggleFavourite (js "5") (js "King St") (page [] None) in
  let st' := show_bus_times (js "101")
               (js "Upcoming Buses at Main St Station") st in
  favourites st = [(js "5", js "King St")]
  ∧ card_heading <$> rendered_cards st = [js "King St"]
  ∧ heading_button_count st' = 0.
Proof. by vm_compute. Qed.

(** ** What does hold of a toggle *)

Lemma inherited_proto : inherited (js "__proto__") = true.
Proof. by vm_compute. Qed.

(** X1: for a stop that is not in the set, whose id is not a name inherited
    from [Object.prototype], and a name that is not empty: the first toggle
    adds the stop under that name and the second restores the set. *)
Theorem toggle_twice_restores (st : State) (x stopName : jsstring) :
  own_get x (favourites st) = None →
  inherited x = false →
  stopName ≠ [] →
  own_get x (favourites (toggleFavourite x stopName st)) = Some stopName
  ∧ favourites (toggleFavourite x stopName (toggleFavourite x stopName st))
    = favourites st.
Proof.
  intros Hx Hi Hn.
  assert (x ≠ js "__proto__") as Hp.
  { intros ->. by rewrite inherited_proto in Hi. }
  assert (favourites (toggleFavourite x stopName st)
          = own_insert x stopName (favourites st)) as H1.
  { rewrite toggleFavourite_favourites. unfold obj_get, obj_set.
    rewrite Hx, Hi. simpl. by rewrite decide_False. }
  assert (own_get x (own_insert x stopName (favourites st)) = Some stopName)
    as H2.
  { rewrite own_get_insert by done. by rewrite decide_True. }
  split.
  - by rewrite H1.
  - rewrite toggleFavourite_favourites, H1. unfold obj_get. rewrite H2.
    destruct stopName; [done|]. simpl. by apply own_delete_insert.
Qed.

Lemma toggle_twice_restores_witness :
  let st := page [(js "7", js "Queen St")] None in
  own_get (js "101") (favourites st) = None
  ∧ inherited (js "101") = false
  ∧ js "Main St Station" ≠ []
  ∧ own_get (js "101")
      (favourites (toggleFavourite (js "101") (js "Main St Station") st))
    = Some (js "Main St Station")
  ∧ favourites
      (toggleFavourite (js "101") (js "Main St Station")
         (toggleFavourite (js "101") (js "Main St Station") st))
    = favourites st.
Proof.
  split; [by vm_compute|]. split; [by vm_compute|]. split; [done|].
  apply (toggle_twice_restores (page [(js "7", js "Queen St")] None));
    by vm_compute.
Defined.

(** X2: a toggle removes the entry of a stop whose stored name is not
    empty, and adds an entry for a stop that has none and whose id is not a
    name inherited from [Object.prototype]. *)
Theorem toggle_removes_or_inserts (st : State) (x stopName : jsstring) :
  (∀ stored, own_get x (favourites st) = Some stored → stored ≠ [] →
     favourites (toggleFavourite x stopName st) = own_delete x (favourites st)
     ∧ own_get x (favourites (toggleFavourite x stopName st)) = None)
  ∧ (own_get x (favourites st) = None → inherited x = false →
     favourites (toggleFavourite x stopName st)
     = own_insert x stopName (favourites st)
     ∧ own_get x (favourites (toggleFavourite x stopName st)) = Some stopName).
Proof.
  split.
  - intros stored Hx Hne. rewrite toggleFavourite_favourites.
    unfold obj_get. rewrite Hx. destruct stored; [done|]. simpl.
    split; [done|]. rewrite own_get_delete. by rewrite decide_True.
  - intros Hx Hi.
    assert (x ≠ js "__proto__") as Hp.
    { intros ->. by rewrite inherited_proto in Hi. }
    rewrite toggleFavourite_favourites. unfold obj_get, obj_set.
    rewrite Hx, Hi. simpl. rewrite decide_False by done.
    split; [done|]. rewrite own_get_insert by done. by rewrite decide_True.
Qed.

(** ** What does hold of the rendered cards *)

Lemma html_text_plain (s : jsstring) : plain_text s → html_text s = Some s.
Proof.
  unfold html_text. induction 1 as [|c s Hc Hs IH]; simpl; [done|].
  rewrite decide_False by (intros ->; apply Hc; by left).
  rewrite bool_decide_eq_false_2 by (intros ?; apply Hc; by right).
  by rewrite IH.
Qed.

(** X4: [renderFavourites] replaces the content of the list by one card
    per entry, in the order of the entries; each card's heading holds the
    stored name as markup, and displays it when the name is plain text. *)
Theorem render_one_card_per_entry (st : State) :
  is_Some (favourites_list st) →
  card_click <$> rendered_cards (renderFavourites st)
  = Object_entries (favourites st)
  ∧ card_heading <$> rendered_cards (renderFavourites st)
    = (favourites st).*2
  ∧ (Forall (λ e, plain_text e.2) (favourites st) →
     displayed_name <$> rendered_cards (renderFavourites st)
     = Some <$> (favourites st).*2).
Proof.
  intros [l Hl].
  assert (rendered_cards (renderFavourites st) = make_card <$> favourites st)
    as ->.
  { unfold renderFavourites, rendered_cards. rewrite Hl. simpl.
    by destruct (favourites_section st). }
  unfold Object_entries.
  induction (favourites st) as [|[k v] f (IH1 & IH2 & IH3)]; [done|].
  rewrite !fmap_cons. cbn [make_card card_click card_heading].
  rewrite IH1, IH2. repeat split; try done.
  intros [Hv Hf]%Forall_cons. rewrite IH3 by done.
  unfold displayed_name at 1. cbn [card_heading].
  by rewrite html_text_plain.
Qed.

Lemma render_one_card_per_entry_witness :
  let st := page [(js "101", js "Main St Station")] None in
  is_Some (favourites_list st)
  ∧ (card_click <$> rendered_cards (renderFavourites st)
     = Object_entries (favourites st)
     ∧ card_heading <$> rendered_cards (renderFavourites st)
       = (favourites st).*2
     ∧ (Forall (λ e, plain_text e.2) (favourites st) →
        displayed_name <$> rendered_cards (renderFavourites st)
        = Some <$> (favourites st).*2)).
Proof.
  split; [by eexists|].
  apply (render_one_card_per_entry
           (page [(js "101", js "Main St Station")] None)).
  by eexists.
Defined.

(** ** What does hold of the binder *)

(** Once the document has a button of that class, the binder does nothing. *)
Lemma binder_idempotent (st : State) :
  document_has_favourite_button st = true →
  addFavouriteButtonToBusTimes st = st.
Proof.
  intros H. unfold addFavouriteButtonToBusTimes.
  destruct (bus_times_heading st); [|done].
  destruct (URLSearchParams_get _ _) as [stopId|]; [|done].
  destruct (is_empty stopId); [done|]. by rewrite H.
Qed.

Lemma bind_times_idempotent (n : nat) (st : State) :
  document_has_favourite_button st = true → bind_times n st = st.
Proof.
  intros H. induction n as [|n IH]; [done|].
  simpl. by rewrite binder_idempotent.
Qed.

(** The first call, when the document has no button of that class yet. *)
Lemma binder_adds (st : State) (h : heading) (stopId : jsstring) :
  bus_times_heading st = Some h →
  URLSearchParams_get (js "stop_id") (location_search st) = Some stopId →
  stopId ≠ [] →
  document_has_favourite_button st = false →
  ∃ b, addFavouriteButtonToBusTimes st
       = set_bus_times_heading
           (Some {| heading_text := heading_text h;
                    heading_buttons := heading_buttons h ++ [b] |}) st
       ∧ has_class (js "favourite-button") b = true
       ∧ button_stopId b = stopId
       ∧ has_class (js "active") b = truthy (obj_get (favourites st) stopId).
Proof.
  intros Hh Hid Hne Hdoc. unfold addFavouriteButtonToBusTimes.
  rewrite Hh, Hid, Hdoc. destruct stopId as [|c stopId']; [done|].
  cbn [is_empty]. eexists. split; [done|].
  cbn [button_stopId]. by destruct (truthy _).
Qed.

(** X3: when no element of class [favourite-button] is in the document (no
    favourite card is displayed), the address names a stop and the heading
    is there, then after any number of calls of the binder, one or more, the
    heading holds exactly one toggle control; it is marked active exactly
    when [favourites[stopId]] is truthy. *)
Theorem binder_adds_exactly_one (st : State) (n : nat) (stopId : jsstring) :
  is_Some (bus_times_heading st) →
  URLSearchParams_get (js "stop_id") (location_search st) = Some stopId →
  stopId ≠ [] →
  document_has_favourite_button st = false →
  0 < n →
  ∃ b, heading_toggle_controls (bind_times n st) = [b]
       ∧ button_stopId b = stopId
       ∧ has_class (js "active") b = truthy (obj_get (favourites st) stopId)
       ∧ favourites (bind_times n st) = favourites st.
Proof.
  intros [h Hh] Hid Hne Hdoc Hn.
  destruct n as [|n]; [lia|]. cbn [bind_times].
  assert (existsb (has_class (js "favourite-button")) (heading_buttons h)
          = false) as Hnone.
  { unfold document_has_favourite_button in Hdoc. rewrite Hh in Hdoc.
    by apply orb_false_elim in Hdoc as [_ ?]. }
  assert (filter (λ b, has_class (js "favourite-button") b = true)
            (heading_buttons h) = []) as Hfilter.
  { clear -Hnone. induction (heading_buttons h) as [|b l IH]; [done|].
    simpl in Hnone. apply orb_false_elim in Hnone as [Hb Hl].
    rewrite filter_cons_False by (by rewrite Hb). by apply IH. }
  destruct (binder_adds st h stopId) as (b & -> & Hb & Hs & Ha); try done.
  rewrite bind_times_idempotent.
  - exists b. unfold heading_toggle_controls.
    cbn [set_bus_times_heading bus_times_heading option_map default
         heading_buttons favourites id].
    rewrite filter_app, Hfilter, filter_cons_True by done. done.
  - unfold document_has_favourite_button.
    cbn [set_bus_times_heading bus_times_heading option_map default
         heading_buttons favourites_list id].
    rewrite existsb_app. cbn [existsb]. rewrite Hb.
    by rewrite !orb_true_r.
Qed.

Lemma binder_adds_exactly_one_witness :
  let st :=
    {| favourites := [];
       localStorage := ∅;
       location_search := [(js "stop_id", js "101")];
       favourites_list := Some [];
       favourites_section := Some (js "none");
       bus_times_heading :=
         Some {| heading_text := js "Upcoming Buses at Main St Station";
                 heading_buttons := [] |} |} in
  is_Some (bus_times_heading st)
  ∧ URLSearchParams_get (js "stop_id") (location_search st) = Some (js "101")
  ∧ js "101" ≠ []
  ∧ document_has_favourite_button st = false
  ∧ 0 < 3
  ∧ ∃ b, heading_toggle_controls (bind_times 3 st) = [b]
         ∧ button_stopId b = js "101"
         ∧ has_class (js "active") b
           = truthy (obj_get (favourites st) (js "101"))
         ∧ favourites (bind_times 3 st) = favourites st.
Proof.
  split; [by eexists|]. split; [by vm_compute|]. split; [done|].
  split; [by vm_compute|]. split; [lia|].
  apply (binder_adds_exactly_one
           {| favourites := [];
              localStorage := ∅;
              location_search := [(js "stop_id", js "101")];
              favourites_list := Some [];
              favourites_section := Some (js "none");
              bus_times_heading :=
                Some {| heading_text := js "Upcoming Buses at Main St Station";
                        heading_buttons := [] |} |} 3 (js "101"));
    [by eexists | by vm_compute | done | by vm_compute | lia].
Defined.

(** ** The buttons after a toggle *)

Lemma classList_toggle_elem (t token : jsstring) (force : bool)
    (tokens : list jsstring) :
  t ∈ classList_toggle token force tokens
  ↔ if force then t ∈ tokens ∨ t = token else t ∈ tokens ∧ t ≠ token.
Proof.
  unfold classList_toggle. case_bool_decide as Hin; destruct force.
  - split; [by left|]. by intros [?| ->].
  - by rewrite list_elem_of_filter, (comm and).
  - rewrite elem_of_app, list_elem_of_singleton. done.
  - split; [|by intros [? _]]. intros Ht. split; [done|]. by intros ->.
Qed.

Lemma update_button_classes (f : favourites_object) (b : button) :
  has_class (js "favourite-button") b = true →
  has_class (js "favourite-button") (update_button f b) = true
  ∧ has_class (js "active") (update_button f b)
    = truthy (obj_get f (button_stopId b))
  ∧ button_innerHTML (update_button f b) = star_icon
  ∧ button_stopId (update_button f b) = button_stopId b
  ∧ button_title (update_button f b) = button_title b
  ∧ button_click (update_button f b) = button_click b.
Proof.
  intros Hb. unfold update_button. rewrite Hb. unfold has_class in *.
  cbn [button_classList button_innerHTML button_stopId button_title
       button_click].
  apply bool_decide_eq_true in Hb.
  repeat split.
  - apply bool_decide_eq_true, classList_toggle_elem.
    destruct (truthy _); [by left|]. split; [done|]. by vm_compute.
  - destruct (truthy _).
    + apply bool_decide_eq_true, classList_toggle_elem. by right.
    + apply bool_decide_eq_false. rewrite classList_toggle_elem. by intros [_ ?].
Qed.

Lemma update_button_other (f : favourites_object) (b : button) :
  has_class (js "favourite-button") b = false → update_button f b = b.
Proof. intros Hb. unfold update_button. by rewrite Hb. Qed.

Lemma updateFavouriteButtons_buttons (st : State) :
  document_buttons (updateFavouriteButtons st)
  = update_button (favourites st) <$> document_buttons st.
Proof.
  unfold document_buttons, updateFavouriteButtons.
  cbn [set_bus_times_heading set_favourites_list favourites_list
       bus_times_heading].
  rewrite fmap_app. f_equal.
  - destruct (favourites_list st) as [cards|]; [|done]. cbn.
    induction cards as [|c cards IH]; [done|]. cbn. by rewrite IH.
  - by destruct (bus_times_heading st).
Qed.

(** X6: after a toggle, every button of class [favourite-button] in the
    document is marked [active] exactly when [favourites[stopId]] is truthy
    for the stop id it carries, and shows the star icon. *)
Theorem buttons_reflect_favourites (st : State) (x stopName : jsstring)
    (b : button) :
  b ∈ document_buttons (toggleFavourite x stopName st) →
  has_class (js "favourite-button") b = true →
  has_class (js "active") b
  = truthy (obj_get (favourites (toggleFavourite x stopName st))
              (button_stopId b))
  ∧ button_innerHTML b = star_icon.
Proof.
  unfold toggleFavourite.
  set (st1 := renderFavourites _).
  rewrite updateFavouriteButtons_buttons.
  intros (b0 & -> & Hb0)%list_elem_of_fmap Hb.
  change (favourites (updateFavouriteButtons st1)) with (favourites st1).
  destruct (has_class (js "favourite-button") b0) eqn:Hc.
  - destruct (update_button_classes (favourites st1) b0 Hc)
      as (_ & Ha & Hi & Hs & _). by rewrite Ha, Hs.
  - rewrite update_button_other in Hb by done. congruence.
Qed.

Lemma buttons_reflect_favourites_witness :
  let st := show_bus_times (js "101") (js "Upcoming Buses at Main St Station")
              (page [] None) in
  let b :=
    {| button_classList := [js "favourite-button"; js "active"];
       button_stopId := js "101";
       button_title := js "Add to favourites";
       button_innerHTML := star_icon;
       button_click := Some (js "101", js "Main St Station") |} in
  b ∈ document_buttons (toggleFavourite (js "101") (js "Main St Station") st)
  ∧ has_class (js "favourite-button") b = true
  ∧ has_class (js "active") b
    = truthy
        (obj_get
           (favourites (toggleFavourite (js "101") (js "Main St Station") st))
           (button_stopId b))
  ∧ button_innerHTML b = star_icon.
Proof.
  assert (∀ (b : button) l, In b l → b ∈ l) as Hin
    by (intros; by apply list_elem_of_In).
  split; [apply Hin; vm_compute; tauto|]. split; [by vm_compute|].
  apply (buttons_reflect_favourites
           (show_bus_times (js "101")
              (js "Upcoming Buses at Main St Station") (page [] None))
           (js "101") (js "Main St Station")).
  - apply Hin. vm_compute. tauto.
  - by vm_compute.
Defined.

(** ** The stop name the binder reads *)

Lemma strip_prefix_app (p s : jsstring) : strip_prefix p (p ++ s) = Some s.
Proof.
  induction p as [|c p IH]; [by destruct s|]. simpl.
  by rewrite decide_True.
Qed.

Lemma String_replace_prefix (p s r : jsstring) :
  String_replace (p ++ s) p r = r ++ s.
Proof.
  destruct (p ++ s) as [|c t] eqn:E; simpl;
    rewrite <-E, strip_prefix_app; done.
Qed.

Lemma trim_start_id (s : jsstring) :
  (∀ c, head s = Some c → is_whitespace c = false) → trim_start s = s.
Proof.
  destruct s as [|c s]; [done|]. intros H. simpl. by rewrite (H c).
Qed.

Lemma String_trim_trimmed (s : jsstring) : trimmed s → String_trim s = s.
Proof.
  intros [Hh Hl]. unfold String_trim. rewrite (trim_start_id s) by done.
  rewrite trim_start_id; [apply reverse_involutive|].
  intros c Hc. apply Hl. by rewrite <-head_reverse.
Qed.

(** What [trim] returns has no white space at either end, and is what is
    left of the string between white space only. *)
Lemma trim_start_spec (s : jsstring) :
  ∃ l, s = l ++ trim_start s
       ∧ Forall (λ c, is_whitespace c = true) l
       ∧ (∀ c, head (trim_start s) = Some c → is_whitespace c = false).
Proof.
  induction s as [|c s (l & Hs & Hl & Hh)]; [by exists []|]. simpl.
  destruct (is_whitespace c) eqn:Hc.
  - exists (c :: l). split; [by rewrite Hs at 1|]. split; [|done].
    by apply Forall_cons.
  - exists []. split; [done|]. split; [done|]. by intros ? [= <-].
Qed.

Lemma String_trim_spec (s : jsstring) :
  ∃ l r, s = l ++ String_trim s ++ r
         ∧ Forall (λ c, is_whitespace c = true) l
         ∧ Forall (λ c, is_whitespace c = true) r
         ∧ trimmed (String_trim s).
Proof.
  unfold String_trim.
  destruct (trim_start_spec s) as (l & Hs & Hl & Hh).
  destruct (trim_start_spec (reverse (trim_start s))) as (r & Ht & Hr & Hh').
  set (t := trim_start s) in *. set (u := trim_start (reverse t)) in *.
  assert (t = reverse u ++ reverse r) as Ht'.
  { by rewrite <-reverse_app, <-Ht, reverse_involutive. }
  exists l, (reverse r). split; [by rewrite <-Ht'|]. split; [done|].
  split; [by apply Forall_reverse|]. split.
  - intros c Hc. apply Hh. rewrite Ht'.
    destruct (reverse u); [done|]. done.
  - intros c Hc. apply Hh'. by rewrite last_reverse in Hc.
Qed.

(** X7: the stop name the binder hands to the button it adds is the text of
    the heading without its first [Upcoming Buses at ] and without white
    space at either end; for a heading that is this prefix followed by a
    name that has no white space at either end, it is that name. *)
Theorem binder_takes_name_from_heading (st : State) (h : heading)
    (stopId : jsstring) :
  bus_times_heading st = Some h →
  URLSearchParams_get (js "stop_id") (location_search st) = Some stopId →
  stopId ≠ [] →
  document_has_favourite_button st = false →
  ∃ stopName,
    button_click <$> heading_toggle_controls (addFavouriteButtonToBusTimes st)
    = [Some (stopId, stopName)]
    ∧ trimmed stopName
    ∧ (∀ name, heading_text h = heading_prefix ++ name → trimmed name →
         stopName = name).
Proof.
  intros Hh Hid Hne Hdoc.
  exists (String_trim (String_replace (heading_text h) heading_prefix [])).
  split; [|split].
  - unfold addFavouriteButtonToBusTimes. rewrite Hh, Hid, Hdoc.
    destruct stopId as [|c stopId']; [done|]. cbn [is_empty].
    unfold heading_toggle_controls.
    cbn [set_bus_times_heading bus_times_heading option_map default
         heading_buttons id].
    assert (filter (λ b, has_class (js "favourite-button") b = true)
              (heading_buttons h) = []) as Hfilter.
    { unfold document_has_favourite_button in Hdoc. rewrite Hh in Hdoc.
      apply orb_false_elim in Hdoc as [_ Hnone]. cbn in Hnone.
      induction (heading_buttons h) as [|b l IH]; [done|].
      simpl in Hnone. apply orb_false_elim in Hnone as [Hb Hl].
      rewrite filter_cons_False by (by rewrite Hb). by apply IH. }
    rewrite filter_app, Hfilter. cbn [app].
    rewrite filter_cons_True by (by destruct (truthy _)). done.
  - by destruct (String_trim_spec
                   (String_replace (heading_text h) heading_prefix []))
      as (_ & _ & _ & _ & _ & ?).
  - intros name -> Hname. rewrite String_replace_prefix.
    by apply String_trim_trimmed.
Qed.

Lemma binder_takes_name_from_heading_witness :
  let st := open_stop (js "101") (js "Upcoming Buses at Main St Station")
              (page [] None) in
  bus_times_heading st
  = Some {| heading_text := js "Upcoming Buses at Main St Station";
            heading_buttons := [] |}
  ∧ URLSearchParams_get (js "stop_id") (location_search st) = Some (js "101")
  ∧ js "101" ≠ []
  ∧ document_has_favourite_button st = false
  ∧ ∃ stopName,
      button_click <$> heading_toggle_controls (addFavouriteButtonToBusTimes st)
      = [Some (js "101", stopName)]
      ∧ trimmed stopName
      ∧ (∀ name,
           heading_text {| heading_text := js "Upcoming Buses at Main St Station";
                           heading_buttons := [] |}
           = heading_prefix ++ name →
           trimmed name → stopName = name).
Proof.
  split; [done|]. split; [by vm_compute|]. split; [done|].
  split; [by vm_compute|].
  apply (binder_takes_name_from_heading
           (open_stop (js "101") (js "Upcoming Buses at Main St Station")
              (page [] None))); [done|by vm_compute|done|by vm_compute].
Defined.

(** ** A click on the button of the heading *)

Lemma show_bus_times_open_stop (stopId text : jsstring) (st : State) :
  show_bus_times stopId text st
  = addFavouriteButtonToBusTimes (open_stop stopId text st).
Proof. done. Qed.

Lemma renderFavourites_bus_times_heading (st : State) :
  bus_times_heading (renderFavourites st) = bus_times_heading st.
Proof.
  unfold renderFavourites.
  destruct (favourites_list st); simpl; [|done].
  by destruct (favourites_section st).
Qed.

Lemma toggleFavourite_bus_times_heading (x stopName : jsstring) (st : State) :
  bus_times_heading (toggleFavourite x stopName st)
  = option_map (update_heading (favourites (toggleFavourite x stopName st)))
      (bus_times_heading st).
Proof.
  rewrite toggleFavourite_favourites. unfold toggleFavourite.
  cbn [updateFavouriteButtons set_bus_times_heading bus_times_heading].
  by rewrite renderFavourites_bus_times_heading, renderFavourites_favourites.
Qed.

(** A falsy [o[k]] means that the assignment stores the value under [k]. *)
Lemma own_get_obj_set_falsy (f : favourites_object) (k v : jsstring) :
  truthy (obj_get f k) = false → own_get k (obj_set f k v) = Some v.
Proof.
  unfold obj_get, obj_set. destruct (own_get k f) as [s|] eqn:Hk.
  - intros _. rewrite own_get_update, decide_True by done. by rewrite Hk.
  - destruct (inherited k) eqn:Hi; [done|]. intros _.
    rewrite decide_False.
    + rewrite own_get_insert by done. by rewrite decide_True.
    + intros ->. by rewrite inherited_proto in Hi.
Qed.

(** X8: the bus-times view of a stop that is no favourite is swapped in on a
    page that displays no favourite card, and its button is clicked: the stop
    is stored under the name read from the heading and the button is marked
    active, but its title is not updated: it still reads [Add to
    favourites]. *)
Theorem header_button_adds_stop (st : State) (stopId name : jsstring) :
  stopId ≠ [] → name ≠ [] → trimmed name →
  rendered_cards st = [] →
  truthy (obj_get (favourites st) stopId) = false →
  let st' :=
    click_heading_button 0
      (show_bus_times stopId (heading_prefix ++ name) st) in
  own_get stopId (favourites st') = Some name
  ∧ ∃ b, heading_toggle_controls st' = [b]
         ∧ button_stopId b = stopId
         ∧ has_class (js "active") b = true
         ∧ button_title b = js "Add to favourites".
Proof.
  intros Hid Hname Htrim Hcards Hfalsy st'.
  assert (show_bus_times stopId (heading_prefix ++ name) st
          = set_bus_times_heading
              (Some {| heading_text := heading_prefix ++ name;
                       heading_buttons :=
                         [{| button_classList := [js "favourite-button"];
                             button_stopId := stopId;
                             button_title := js "Add to favourites";
                             button_innerHTML := star_icon;
                             button_click := Some (stopId, name) |}] |})
              (open_stop stopId (heading_prefix ++ name) st)) as Hshow.
  { rewrite show_bus_times_open_stop.
    unfold addFavouriteButtonToBusTimes, document_has_favourite_button.
    change (bus_times_heading (open_stop stopId (heading_prefix ++ name) st))
      with (Some {| heading_text := heading_prefix ++ name;
                    heading_buttons := [] |}).
    change (location_search (open_stop stopId (heading_prefix ++ name) st))
      with [(js "stop_id", stopId)].
    change (favourites_list (open_stop stopId (heading_prefix ++ name) st))
      with (favourites_list st).
    change (favourites (open_stop stopId (heading_prefix ++ name) st))
      with (favourites st).
    cbn [URLSearchParams_get heading_text heading_buttons option_map default
         existsb app].
    rewrite decide_True by done.
    destruct stopId as [|c stopId']; [done|]. cbn [is_empty].
    unfold rendered_cards in Hcards. rewrite Hcards. cbn [existsb orb].
    rewrite Hfalsy. fold heading_prefix. rewrite String_replace_prefix.
    cbn [app]. by rewrite String_trim_trimmed. }
  subst st'. rewrite Hshow.
  set (st1 := set_bus_times_heading _ _).
  change (click_heading_button 0 st1) with (toggleFavourite stopId name st1).
  assert (own_get stopId (favourites (toggleFavourite stopId name st1))
          = Some name) as Hown.
  { rewrite toggleFavourite_favourites.
    change (favourites st1) with (favourites st). rewrite Hfalsy.
    by apply own_get_obj_set_falsy. }
  split; [done|].
  unfold heading_toggle_controls.
  rewrite toggleFavourite_bus_times_heading.
  cbn [st1 set_bus_times_heading bus_times_heading option_map default
       update_heading heading_buttons fmap list_fmap id].
  set (b0 := {| button_classList := [js "favourite-button"] |}).
  destruct (update_button_classes
              (favourites (toggleFavourite stopId name st1)) b0)
    as (Hfb & Ha & _ & Hs & Ht & _); [done|].
  eexists. rewrite filter_cons_True by done. split; [done|].
  split; [done|]. split; [|done].
  rewrite Ha. cbn [b0 button_stopId]. unfold obj_get. rewrite Hown.
  by destruct name.
Qed.

Lemma header_button_adds_stop_witness :
  let st := page [] None in
  let st' :=
    click_heading_button 0
      (show_bus_times (js "101") (heading_prefix ++ js "Main St Station") st) in
  js "101" ≠ [] ∧ js "Main St Station" ≠ [] ∧ trimmed (js "Main St Station")
  ∧ rendered_cards st = []
  ∧ truthy (obj_get (favourites st) (js "101")) = false
  ∧ (own_get (js "101") (favourites st') = Some (js "Main St Station")
     ∧ ∃ b, heading_toggle_controls st' = [b]
            ∧ button_stopId b = js "101"
            ∧ has_class (js "active") b = true
            ∧ button_title b = js "Add to favourites").
Proof.
  assert (trimmed (js "Main St Station")) as Ht.
  { split; intros c [= <-]; by vm_compute. }
  split; [done|]. split; [done|]. split; [exact Ht|]. split; [done|].
  split; [done|].
  exact (header_button_adds_stop (page [] None) (js "101")
           (js "Main St Station") ltac:(done) ltac:(done) Ht eq_refl eq_refl).
Defined.

(** ** A click on the button of a card *)

Lemma canonical_lookup {V : Type} (o : list (jsstring * V)) (i : nat)
    (k : jsstring) (v : V) :
  canonical o → o !! i = Some (k, v) → own_get k o = Some v.
Proof.
  unfold canonical. revert i.
  induction o as [|[k0 v0] o IH]; intros i; [done|].
  rewrite fmap_cons. intros [Hk0 Ho]%StronglySorted_cons.
  destruct i as [|i]; simpl.
  - intros [= -> ->]. by rewrite decide_True.
  - intros Hi. rewrite decide_False; [by eapply IH|].
    intros ->. rewrite Forall_forall in Hk0.
    destruct (Hk0 k0) as [Hne _]; [|done].
    apply list_elem_of_fmap. exists (k0, v). split; [done|].
    by eapply list_elem_of_lookup_2.
Qed.

Lemma own_update_same {V : Type} (o : list (jsstring * V)) (k : jsstring)
    (v : V) :
  own_get k o = Some v → own_update k v o = o.
Proof.
  induction o as [|[k0 v0] o IH]; simpl; [done|].
  case_decide as Hk; [by intros [= ->]; subst|]. intros ?. by rewrite IH.
Qed.

Lemma renderFavourites_cards (st : State) :
  is_Some (favourites_list st) →
  favourites_list (renderFavourites st) = Some (make_card <$> favourites st).
Proof.
  intros [l Hl]. unfold renderFavourites. rewrite Hl. simpl.
  by destruct (favourites_section st).
Qed.

Lemma updated_cards_click (g f : favourites_object) :
  card_click <$> map (update_card g) (make_card <$> f) = f.
Proof.
  induction f as [|[k v] f IH]; [done|]. cbn. f_equal. exact IH.
Qed.

Lemma toggleFavourite_cards (x stopName : jsstring) (st : State) :
  is_Some (favourites_list st) →
  card_click <$> rendered_cards (toggleFavourite x stopName st)
  = favourites (toggleFavourite x stopName st).
Proof.
  intros Hl. rewrite toggleFavourite_favourites.
  unfold toggleFavourite, rendered_cards.
  cbn [updateFavouriteButtons set_bus_times_heading set_favourites_list
       favourites_list].
  rewrite renderFavourites_favourites, renderFavourites_cards by done.
  cbn [saveFavourites set_localStorage set_favourites favourites option_map
       default id].
  apply updated_cards_click.
Qed.

(** X9: the cards are rendered, and the button of the card of a stop whose
    stored name is not empty is clicked: that stop leaves the favourites
    object, every other entry stays, and the cards are those of the entries
    that are left, in their order. *)
Theorem card_button_removes_stop (st : State) (i : nat) (k v : jsstring) :
  is_Some (favourites_list st) →
  canonical (favourites st) →
  favourites st !! i = Some (k, v) →
  v ≠ [] →
  let st' := click_card_button i (renderFavourites st) in
  favourites st' = own_delete k (favourites st)
  ∧ own_get k (favourites st') = None
  ∧ (∀ k', k' ≠ k → own_get k' (favourites st') = own_get k' (favourites st))
  ∧ card_click <$> rendered_cards st' = own_delete k (favourites st).
Proof.
  intros Hl Hc Hi Hv st'.
  assert (st' = toggleFavourite k v (renderFavourites st)) as ->.
  { subst st'. unfold click_card_button.
    rewrite renderFavourites_cards by done. cbn [default from_option id].
    by rewrite list_lookup_fmap, Hi. }
  assert (is_Some (favourites_list (renderFavourites st))) as Hl'.
  { rewrite renderFavourites_cards by done. by eexists. }
  assert (favourites (toggleFavourite k v (renderFavourites st))
          = own_delete k (favourites st)) as Hf.
  { rewrite toggleFavourite_favourites, renderFavourites_favourites.
    unfold obj_get. rewrite (canonical_lookup _ _ _ _ Hc Hi).
    by destruct v. }
  split; [done|]. rewrite toggleFavourite_cards by done. rewrite Hf.
  split; [|split; [|done]].
  - rewrite own_get_delete. by rewrite decide_True.
  - intros k' Hk'. rewrite own_get_delete. by rewrite decide_False.
Qed.

Lemma card_button_removes_stop_witness :
  let st := page [(js "5", js "King St"); (js "7", js "Queen St")] None in
  let st' := click_card_button 0 (renderFavourites st) in
  is_Some (favourites_list st)
  ∧ canonical (favourites st)
  ∧ favourites st !! 0 = Some (js "5", js "King St")
  ∧ js "King St" ≠ []
  ∧ (favourites st' = own_delete (js "5") (favourites st)
     ∧ own_get (js "5") (favourites st') = None
     ∧ (∀ k', k' ≠ js "5" →
          own_get k' (favourites st') = own_get k' (favourites st))
     ∧ card_click <$> rendered_cards st'
       = own_delete (js "5") (favourites st)).
Proof.
  assert (canonical
            (favourites
               (page [(js "5", js "King St"); (js "7", js "Queen St")] None)))
    as Hc.
  { apply StronglySorted_cons. split.
    - apply Forall_singleton. split; [done|]. by vm_compute.
    - apply StronglySorted_cons. split; [done|constructor]. }
  split; [by eexists|]. split; [exact Hc|]. split; [done|]. split; [done|].
  exact (card_button_removes_stop
           (page [(js "5", js "King St"); (js "7", js "Queen St")] None)
           0 (js "5") (js "King St") ltac:(by eexists) Hc eq_refl
           ltac:(done)).
Defined.

(** X10: the button of the card of a stop whose stored name is the empty
    string removes nothing: the favourites object is as before. *)
Theorem card_button_keeps_unnamed_stop (st : State) (i : nat) (k : jsstring) :
  is_Some (favourites_list st) →
  canonical (favourites st) →
  favourites st !! i = Some (k, []) →
  favourites (click_card_button i (renderFavourites st)) = favourites st.
Proof.
  intros Hl Hc Hi. unfold click_card_button.
  rewrite renderFavourites_cards by done. cbn [default from_option id].
  rewrite list_lookup_fmap, Hi. cbn [fmap option_fmap option_map make_card
                                      card_click fst snd].
  rewrite toggleFavourite_favourites, renderFavourites_favourites.
  pose proof (canonical_lookup _ _ _ _ Hc Hi) as Hk.
  unfold obj_get, obj_set. rewrite Hk. cbn [truthy is_empty negb].
  by apply own_update_same.
Qed.

Lemma card_button_keeps_unnamed_stop_witness :
  let st := page [(js "5", [])] None in
  is_Some (favourites_list st)
  ∧ canonical (favourites st)
  ∧ favourites st !! 0 = Some (js "5", [])
  ∧ favourites (click_card_button 0 (renderFavourites st)) = favourites st.
Proof.
  assert (canonical (favourites (page [(js "5", [])] None))) as Hc.
  { apply StronglySorted_cons. split; [done|constructor]. }
  split; [by eexists|]. split; [exact Hc|]. split; [done|].
  exact (card_button_keeps_unnamed_stop (page [(js "5", [])] None) 0 (js "5")
           ltac:(by eexists) Hc eq_refl).
Defined.

(** ** Loading the page again *)

Lemma favourites_of_value_favourites_value (f : favourites_object) :
  favourites_of_value (favourites_value f) = Some f.
Proof.
  unfold favourites_of_value, favourites_value.
  induction f as [|[k v] f IH]; [done|].
  rewrite fmap_cons. cbn. cbn in IH. by rewrite IH.
Qed.

Lemma made_cards_click (f : favourites_object) :
  card_click <$> (make_card <$> f) = f.
Proof. induction f as [|[k v] f IH]; [done|]. cbn. f_equal. exact IH. Qed.

(** X11: the favourites survive a reload.  After a toggle, a manager
    constructed on any page that finds the same value in the store (the
    next visit) holds the favourites object the toggle left in memory, and
    renders one card per entry of it. *)
Theorem reload_restores_favourites (st next : State) (x stopName : jsstring) :
  canonical (favourites st) →
  localStorage next !! storage_key
  = localStorage (toggleFavourite x stopName st) !! storage_key →
  ∃ st',
    new_FavouritesManager next = Normal (Some st')
    ∧ favourites st' = favourites (toggleFavourite x stopName st)
    ∧ (is_Some (favourites_list next) →
       card_click <$> rendered_cards st'
       = favourites (toggleFavourite x stopName st)).
Proof.
  intros Hc Hstore.
  assert (loadFavourites next
          = Normal (favourites_value
                      (favourites (toggleFavourite x stopName st)))) as Hload.
  { unfold loadFavourites. rewrite Hstore.
    rewrite toggleFavourite_localStorage, lookup_insert_eq.
    rewrite JSON_stringify_not_empty.
    by apply JSON_parse_stringify_canonical, toggleFavourite_canonical. }
  unfold new_FavouritesManager. rewrite Hload.
  rewrite favourites_of_value_favourites_value. cbn.
  eexists. split; [done|]. rewrite renderFavourites_favourites.
  split; [done|]. intros Hl. unfold rendered_cards.
  rewrite renderFavourites_cards by done. cbn [set_favourites favourites].
  apply made_cards_click.
Qed.

Lemma reload_restores_favourites_witness :
  let st := page [(js "7", js "Queen St")] None in
  let next :=
    page [] (Some (JSON_stringify [(js "5", js "King St");
                                   (js "7", js "Queen St")])) in
  canonical (favourites st)
  ∧ localStorage next !! storage_key
    = localStorage (toggleFavourite (js "5") (js "King St") st) !! storage_key
  ∧ ∃ st',
      new_FavouritesManager next = Normal (Some st')
      ∧ favourites st'
        = favourites (toggleFavourite (js "5") (js "King St") st)
      ∧ (is_Some (favourites_list next) →
         card_click <$> rendered_cards st'
         = favourites (toggleFavourite (js "5") (js "King St") st)).
Proof.
  assert (canonical (favourites (page [(js "7", js "Queen St")] None))) as Hc.
  { apply StronglySorted_cons. split; [done|constructor]. }
  split; [exact Hc|]. split; [by vm_compute|].
  apply (reload_restores_favourites (page [(js "7", js "Queen St")] None));
    [exact Hc|by vm_compute].
Defined.

(** ** The order of the cards *)

Lemma StronglySorted_lookup {A : Type} (R : relation A) (l : list A)
    (i j : nat) (a b : A) :
  StronglySorted R l → i < j → l !! i = Some a → l !! j = Some b → R a b.
Proof.
  intros Hl. revert i j. induction Hl as [|x l Hl IH Hx]; intros i j; [done|].
  destruct j as [|j]; [lia|]. destruct i as [|i]; simpl.
  - intros _ [= ->] Hb. rewrite Forall_forall in Hx. apply Hx.
    by eapply list_elem_of_lookup_2.
  - intros Hij. apply IH. lia.
Qed.

Lemma toggle_all_canonical (ops : list (jsstring * jsstring)) (st : State) :
  canonical (favourites st) → canonical (favourites (toggle_all ops st)).
Proof.
  revert st. induction ops as [|[x n] ops IH]; intros st Hc; [done|].
  cbn [toggle_all]. by apply IH, toggleFavourite_canonical.
Qed.

Lemma toggle_all_cards (ops : list (jsstring * jsstring)) (st : State) :
  is_Some (favourites_list st) → ops ≠ [] →
  card_click <$> rendered_cards (toggle_all ops st)
  = favourites (toggle_all ops st).
Proof.
  revert st. induction ops as [|[x n] ops IH]; intros st Hl Hne; [done|].
  cbn [toggle_all]. destruct ops as [|op ops'].
  - by apply toggleFavourite_cards.
  - apply IH; [by apply toggleFavourite_favourites_list|done].
Qed.

(** X12: the cards are in the order of the object's own properties.  After
    any sequence of toggles, a stop has at most one card, and the card of a
    stop whose id is a number (an array index) comes after the cards of
    smaller numbers only: numeric ids are listed first, ascending, whatever
    the order in which the stops were added. *)
Theorem cards_in_object_order (ops : list (jsstring * jsstring)) (st : State)
    (i j : nat) (ci cj : card) :
  canonical (favourites st) →
  is_Some (favourites_list st) →
  ops ≠ [] →
  i < j →
  rendered_cards (toggle_all ops st) !! i = Some ci →
  rendered_cards (toggle_all ops st) !! j = Some cj →
  (card_click ci).1 ≠ (card_click cj).1
  ∧ ∀ n, array_index (card_click cj).1 = Some n →
         ∃ m, array_index (card_click ci).1 = Some m ∧ (m < n)%N.
Proof.
  intros Hc Hl Hne Hij Hi Hj.
  pose proof (toggle_all_canonical ops st Hc) as Hs. unfold canonical in Hs.
  rewrite <-(toggle_all_cards ops st Hl Hne) in Hs.
  destruct (StronglySorted_lookup _ _ i j (card_click ci).1 (card_click cj).1
              Hs Hij) as [Hne' Hb].
  - by rewrite !list_lookup_fmap, Hi.
  - by rewrite !list_lookup_fmap, Hj.
  - split; [done|]. intros n Hn. rewrite Hn in Hb.
    destruct (array_index (card_click ci).1) as [m|]; [|done]. by exists m.
Qed.

Lemma cards_in_object_order_witness :
  let ops := [(js "7", js "Queen St"); (js "5", js "King St")] in
  let st := page [] None in
  let ci := make_card (js "5", js "King St") in
  let cj := make_card (js "7", js "Queen St") in
  canonical (favourites st)
  ∧ is_Some (favourites_list st)
  ∧ ops ≠ []
  ∧ 0 < 1
  ∧ card_click <$> rendered_cards (toggle_all ops st) !! 0
    = Some (card_click ci)
  ∧ ((card_click ci).1 ≠ (card_click cj).1
     ∧ ∀ n, array_index (card_click cj).1 = Some n →
            ∃ m, array_index (card_click ci).1 = Some m ∧ (m < n)%N).
Proof.
  split; [constructor|]. split; [by eexists|]. split; [done|].
  split; [lia|]. split; [by vm_compute|].
  apply (cards_in_object_order
           [(js "7", js "Queen St"); (js "5", js "King St")] (page [] None)
           0 1 (update_card [(js "5", js "King St"); (js "7", js "Queen St")]
                  (make_card (js "5", js "King St")))
               (update_card [(js "5", js "King St"); (js "7", js "Queen St")]
                  (make_card (js "7", js "Queen St"))));
    [constructor|by eexists|done|lia|by vm_compute|by vm_compute].
Defined.

(** ** The theme *)

Lemma updateThemeIcon_frame (theme : jsstring) (d : Document) :
  page_state (updateThemeIcon theme d).1 = page_state d
  ∧ data_theme (updateThemeIcon theme d).1 = data_theme d
  ∧ listeners (updateThemeIcon theme d).1 = listeners d
  ∧ favouritesManager (updateThemeIcon theme d).1 = favouritesManager d
  ∧ stop_id_input (updateThemeIcon theme d).1 = stop_id_input d
  ∧ refreshes (updateThemeIcon theme d).1 = refreshes d.
Proof.
  unfold updateThemeIcon.
  destruct (decide (theme = js "dark")), (light_icon d); try done;
    cbn [set_light_icon dark_icon]; by destruct (dark_icon d).
Qed.

Lemma updateThemeIcon_icons (theme : jsstring) (d : Document) :
  is_Some (light_icon d) → is_Some (dark_icon d) →
  (updateThemeIcon theme d).2 = Completed
  ∧ icons_show theme (updateThemeIcon theme d).1.
Proof.
  intros [l Hl] [k Hk]. unfold updateThemeIcon, icons_show.
  destruct (decide (theme = js "dark")); rewrite Hl;
    cbn [set_light_icon dark_icon]; rewrite Hk; done.
Qed.

Lemma updateThemeIcon_missing (theme : jsstring) (d : Document) :
  light_icon d = None ∨ dark_icon d = None →
  (updateThemeIcon theme d).2 = Threw TypeError.
Proof.
  unfold updateThemeIcon.
  destruct (decide (theme = js "dark")), (light_icon d) eqn:Hl;
    cbn [set_light_icon dark_icon]; destruct (dark_icon d) eqn:Hk;
    intros [?|?]; done.
Qed.

Lemma init_theme_data_theme (d : Document) :
  data_theme (init_theme d).1
  = Some (or_else
            (URLSearchParams_get (js "theme") (location_search (page_state d)))
            (or_else (getItem (js "theme") d)
               (if prefers_dark d then js "dark" else js "light"))).
Proof.
  unfold init_theme. set (t := or_else _ _). set (d1 := set_data_theme _ _).
  by destruct (updateThemeIcon_frame t d1) as (_ & -> & _).
Qed.

Lemma theme_toggle_click_data_theme (d : Document) :
  data_theme (theme_toggle_click d).1 = Some (other_theme (data_theme d)).
Proof.
  unfold theme_toggle_click. fold (other_theme (data_theme d)).
  by destruct (updateThemeIcon_frame (other_theme (data_theme d))
                 (setItem (js "theme") (other_theme (data_theme d))
                    (set_data_theme (Some (other_theme (data_theme d))) d)))
    as (_ & -> & _).
Qed.

Lemma theme_toggle_click_stored (d : Document) :
  getItem (js "theme") (theme_toggle_click d).1
  = Some (other_theme (data_theme d)).
Proof.
  unfold theme_toggle_click, getItem. fold (other_theme (data_theme d)).
  destruct (updateThemeIcon_frame (other_theme (data_theme d))
              (setItem (js "theme") (other_theme (data_theme d))
                 (set_data_theme (Some (other_theme (data_theme d))) d)))
    as (-> & _).
  cbn [setItem set_page_state page_state set_data_theme set_localStorage
       localStorage].
  apply lookup_insert_eq.
Qed.

(** X13: with both icons in the document, the theme handling at load and
    every click on the toggle complete, and leave exactly one icon
    displayed: the dark one when the attribute [data-theme] they have set is
    [dark], the light one for any other theme. *)
Theorem theme_icons_follow_theme (d : Document) :
  is_Some (light_icon d) → is_Some (dark_icon d) →
  (∃ t, (init_theme d).2 = Completed
        ∧ data_theme (init_theme d).1 = Some t
        ∧ icons_show t (init_theme d).1)
  ∧ (∃ t, (theme_toggle_click d).2 = Completed
          ∧ data_theme (theme_toggle_click d).1 = Some t
          ∧ icons_show t (theme_toggle_click d).1).
Proof.
  intros Hl Hk. split.
  - eexists. rewrite init_theme_data_theme. split; [|split; [done|]];
      unfold init_theme; apply updateThemeIcon_icons;
      cbn [set_data_theme light_icon dark_icon];
      by destruct (falsy _).
  - eexists. rewrite theme_toggle_click_data_theme.
    split; [|split; [done|]];
      unfold theme_toggle_click; fold (other_theme (data_theme d));
      by apply updateThemeIcon_icons.
Qed.

Lemma theme_icons_follow_theme_witness :
  let d := whole_document (page [] None) true in
  is_Some (light_icon d) ∧ is_Some (dark_icon d)
  ∧ ((∃ t, (init_theme d).2 = Completed
           ∧ data_theme (init_theme d).1 = Some t
           ∧ icons_show t (init_theme d).1)
     ∧ (∃ t, (theme_toggle_click d).2 = Completed
             ∧ data_theme (theme_toggle_click d).1 = Some t
             ∧ icons_show t (theme_toggle_click d).1)).
Proof.
  split; [by eexists|]. split; [by eexists|].
  apply theme_icons_follow_theme; by eexists.
Defined.

Lemma other_theme_not_empty (t : option jsstring) :
  is_empty (other_theme t) = false.
Proof. unfold other_theme. by case_decide. Qed.

(** X14: the theme chosen by a click survives a reload.  Whatever the
    system preference, and whether or not the icons are there, a page that
    is loaded without a theme in its address and finds in the store what the
    click left there comes up in the theme the click has set. *)
Theorem theme_survives_reload (d next : Document) :
  falsy (URLSearchParams_get (js "theme") (location_search (page_state next)))
  = true →
  getItem (js "theme") next = getItem (js "theme") (theme_toggle_click d).1 →
  data_theme (init_theme next).1 = data_theme (theme_toggle_click d).1.
Proof.
  intros Hurl Hstore.
  rewrite init_theme_data_theme, theme_toggle_click_data_theme, Hstore.
  rewrite theme_toggle_click_stored. f_equal.
  destruct (URLSearchParams_get _ _) as [u|]; cbn in *.
  - rewrite Hurl. unfold or_else. by rewrite other_theme_not_empty.
  - unfold or_else. by rewrite other_theme_not_empty.
Qed.

(** X15: two clicks on the toggle bring back the theme exactly when it was
    [light] or [dark].  From any other theme (one given in the address, or
    no attribute at all) the first click sets [light], and the original
    theme is not reached again. *)
Theorem theme_two_clicks (d : Document) :
  data_theme (theme_toggle_click (theme_toggle_click d).1).1 = data_theme d
  ↔ data_theme d = Some (js "light") ∨ data_theme d = Some (js "dark").
Proof.
  rewrite !theme_toggle_click_data_theme. unfold other_theme.
  destruct (decide (data_theme d = Some (js "light"))) as [->|Hl].
  - rewrite decide_False by (by vm_compute). tauto.
  - rewrite decide_True by done. split.
    + intros <-. by right.
    + by intros [?| ->].
Qed.

(** X16: a theme given in the address is applied and not stored: the store
    is as it was, so that the next load without the parameter comes up in the
    stored theme or, with none stored, in the one the system prefers. *)
Theorem address_theme_is_not_stored (d next : Document) (t : jsstring) :
  URLSearchParams_get (js "theme") (location_search (page_state d)) = Some t →
  t ≠ [] →
  falsy (URLSearchParams_get (js "theme") (location_search (page_state next)))
  = true →
  getItem (js "theme") next = getItem (js "theme") (init_theme d).1 →
  data_theme (init_theme d).1 = Some t
  ∧ localStorage (page_state (init_theme d).1) = localStorage (page_state d)
  ∧ data_theme (init_theme next).1
    = Some (or_else (getItem (js "theme") d)
              (if prefers_dark next then js "dark" else js "light")).
Proof.
  intros Hurl Ht Hnext Hstore.
  assert (localStorage (page_state (init_theme d).1)
          = localStorage (page_state d)) as Hsame.
  { unfold init_theme. set (c := or_else _ _). set (d1 := set_data_theme _ _).
    destruct (updateThemeIcon_frame c d1) as (-> & _).
    subst d1. rewrite Hurl. cbn [falsy]. by destruct t. }
  split; [|split; [done|]].
  - rewrite init_theme_data_theme, Hurl. by destruct t.
  - rewrite init_theme_data_theme, Hstore. unfold getItem. rewrite Hsame.
    f_equal.
    destruct (URLSearchParams_get (js "theme")
                (location_search (page_state next))) as [u|]; [|done].
    cbn in Hnext. unfold or_else at 1. by rewrite Hnext.
Qed.

Lemma theme_survives_reload_witness :
  let d := whole_document (page [] None) false in
  let next :=
    whole_document
      (set_localStorage (localStorage (page_state (theme_toggle_click d).1))
         (page [] None)) true in
  falsy (URLSearchParams_get (js "theme") (location_search (page_state next)))
  = true
  ∧ getItem (js "theme") next = getItem (js "theme") (theme_toggle_click d).1
  ∧ data_theme (init_theme next).1 = data_theme (theme_toggle_click d).1.
Proof.
  split; [done|]. split; [done|].
  by apply theme_survives_reload.
Defined.

Lemma address_theme_is_not_stored_witness :
  let d :=
    whole_document
      (set_location_search [(js "theme", js "dark")]
         (page [] None)) false in
  let next :=
    whole_document
      (set_localStorage (localStorage (page_state (init_theme d).1))
         (page [] None)) false in
  URLSearchParams_get (js "theme") (location_search (page_state d))
  = Some (js "dark")
  ∧ js "dark" ≠ []
  ∧ falsy (URLSearchParams_get (js "theme")
             (location_search (page_state next))) = true
  ∧ getItem (js "theme") next = getItem (js "theme") (init_theme d).1
  ∧ (data_theme (init_theme d).1 = Some (js "dark")
     ∧ localStorage (page_state (init_theme d).1)
       = localStorage (page_state d)
     ∧ data_theme (init_theme next).1
       = Some (or_else (getItem (js "theme") d)
                 (if prefers_dark next then js "dark" else js "light"))).
Proof.
  split; [by vm_compute|]. split; [done|]. split; [done|]. split; [done|].
  by apply address_theme_is_not_stored.
Defined.

(** ** The store is shared *)

Lemma theme_key_not_storage_key : js "theme" ≠ storage_key.
Proof. by vm_compute. Qed.

Lemma init_theme_favourites_key (d : Document) :
  localStorage (page_state (init_theme d).1) !! storage_key
  = localStorage (page_state d) !! storage_key.
Proof.
  unfold init_theme. set (c := or_else _ _). set (d1 := set_data_theme _ _).
  destruct (updateThemeIcon_frame c d1) as (-> & _). subst d1.
  destruct (falsy _); [|done].
  cbn [set_data_theme setItem set_page_state page_state set_localStorage
       localStorage].
  rewrite lookup_insert_ne; [done|apply theme_key_not_storage_key].
Qed.

Lemma theme_toggle_click_favourites_key (d : Document) :
  localStorage (page_state (theme_toggle_click d).1) !! storage_key
  = localStorage (page_state d) !! storage_key.
Proof.
  unfold theme_toggle_click. fold (other_theme (data_theme d)).
  destruct (updateThemeIcon_frame (other_theme (data_theme d))
              (setItem (js "theme") (other_theme (data_theme d))
                 (set_data_theme (Some (other_theme (data_theme d))) d)))
    as (-> & _).
  cbn [set_data_theme setItem set_page_state page_state set_localStorage
       localStorage].
  rewrite lookup_insert_ne; [done|apply theme_key_not_storage_key].
Qed.

(** X17: the theme and the favourites share the store without disturbing
    each other: a toggle of a favourite changes the value of no key but
    [busStopFavourites] (the stored theme stays), and neither the theme
    handling at load nor a click on the theme toggle changes what
    [loadFavourites] will read. *)
Theorem store_is_shared (d : Document) (x stopName : jsstring) :
  (∀ k, k ≠ storage_key →
     localStorage (toggleFavourite x stopName (page_state d)) !! k
     = localStorage (page_state d) !! k)
  ∧ getItem (js "theme")
      (set_page_state (toggleFavourite x stopName (page_state d)) d)
    = getItem (js "theme") d
  ∧ loadFavourites (page_state (init_theme d).1)
    = loadFavourites (page_state d)
  ∧ loadFavourites (page_state (theme_toggle_click d).1)
    = loadFavourites (page_state d).
Proof.
  assert (∀ k, k ≠ storage_key →
            localStorage (toggleFavourite x stopName (page_state d)) !! k
            = localStorage (page_state d) !! k) as H.
  { intros k Hk. rewrite toggleFavourite_localStorage.
    by rewrite lookup_insert_ne. }
  split; [done|]. split; [apply H, theme_key_not_storage_key|].
  unfold loadFavourites.
  by rewrite init_theme_favourites_key, theme_toggle_click_favourites_key.
Qed.

(** ** The address *)

Lemma strip_leading_c0_space_app (x y : jsstring) (c : N) :
  (32 < c)%N →
  strip_leading_c0_space (x ++ c :: y) = strip_leading_c0_space x ++ c :: y.
Proof.
  intros Hc. induction x as [|a x IH]; cbn [strip_leading_c0_space app].
  - destruct (N.leb_spec c 32); [lia|done].
  - destruct (a <=? 32)%N; [done|]. done.
Qed.

Lemma strip_trailing_c0_space_app (a b : jsstring) (c : N) :
  (32 < c)%N →
  strip_trailing_c0_space (a ++ c :: b) = a ++ c :: strip_trailing_c0_space b.
Proof.
  intros Hc. unfold strip_trailing_c0_space.
  rewrite reverse_app, reverse_cons, <- app_assoc. cbn [app].
  rewrite strip_leading_c0_space_app by done.
  rewrite reverse_app, reverse_cons, reverse_involutive, <- app_assoc.
  done.
Qed.

Lemma strip_trailing_c0_space_safe (s : jsstring) :
  (∀ c, last s = Some c → (32 < c)%N) → strip_trailing_c0_space s = s.
Proof.
  intros Hl. destruct s as [|c s _] using rev_ind; [done|].
  rewrite strip_trailing_c0_space_app by (apply Hl; by rewrite last_snoc).
  done.
Qed.

Lemma remove_tab_newline_app (a b : jsstring) :
  remove_tab_newline (a ++ b) = remove_tab_newline a ++ remove_tab_newline b.
Proof. apply filter_app. Qed.

Lemma remove_tab_newline_safe (s : jsstring) :
  Forall address_char s → remove_tab_newline s = s.
Proof.
  induction 1 as [|c s [_ Hc] _ IH]; [done|].
  unfold remove_tab_newline in *. rewrite filter_cons, IH.
  rewrite decide_True; [done|].
  intros Hin. apply Hc. rewrite !elem_of_cons in *. tauto.
Qed.

Lemma until_hash_app (a b : jsstring) :
  Forall address_char a → until_hash (a ++ 35%N :: b) = a.
Proof.
  induction 1 as [|c s [_ Hc] _ IH]; cbn [until_hash app].
  - by rewrite decide_True.
  - rewrite decide_False by set_solver. by rewrite IH.
Qed.

Lemma until_hash_amp (a b : jsstring) :
  Forall address_char a →
  until_hash (a ++ 38%N :: b) = a ++ 38%N :: until_hash b.
Proof.
  induction 1 as [|c s [_ Hc] _ IH]; cbn [until_hash app].
  - by rewrite decide_False.
  - rewrite decide_False by set_solver. by rewrite IH.
Qed.

Lemma until_hash_safe (s : jsstring) :
  Forall address_char s → until_hash s = s.
Proof.
  induction 1 as [|c s [_ Hc] _ IH]; cbn [until_hash]; [done|].
  rewrite decide_False by set_solver. by rewrite IH.
Qed.

Lemma query_encode_app (a b : jsstring) :
  query_encode (a ++ b) = query_encode a ++ query_encode b.
Proof. apply bind_app. Qed.

Lemma hex_value_upper_hex_digit (n : N) :
  (n < 16)%N → hex_value (upper_hex_digit n) = Some n.
Proof.
  intros Hn. unfold upper_hex_digit, hex_value, is_digit.
  destruct (N.ltb_spec n 10).
  - replace ((48 <=? 48 + n) && (48 + n <=? 57))%N with true
      by (symmetry; apply andb_true_iff; split; apply N.leb_le; lia).
    f_equal. lia.
  - replace ((48 <=? 55 + n) && (55 + n <=? 57))%N with false
      by (symmetry; apply andb_false_iff; right; apply N.leb_gt; lia).
    replace ((97 <=? 55 + n) && (55 + n <=? 102))%N with false
      by (symmetry; apply andb_false_iff; left; apply N.leb_gt; lia).
    replace ((65 <=? 55 + n) && (55 + n <=? 70))%N with true
      by (symmetry; apply andb_true_iff; split; apply N.leb_le; lia).
    f_equal. lia.
Qed.

Lemma percent_decode_other (c : N) (s : jsstring) :
  c ≠ 37%N → percent_decode (c :: s) = c :: percent_decode s.
Proof.
  intros Hc. cbn [percent_decode].
  destruct s as [|h [|l s]]; [done..|]. by rewrite decide_False.
Qed.

Lemma percent_decode_query_encode (s : jsstring) :
  Forall address_char s → percent_decode (plus_to_space (query_encode s)) = s.
Proof.
  induction 1 as [|c s [Hlt Hc] _ IH]; [done|].
  change (query_encode (c :: s)) with (query_encode_char c ++ query_encode s).
  unfold plus_to_space in *. rewrite fmap_app.
  assert (c ≠ 37%N ∧ c ≠ 43%N) as [H37 H43].
  { split; intros ->; apply Hc; set_solver. }
  unfold query_encode_char. destruct (query_encoded c).
  - assert (c / 16 < 16)%N as Hhi by (apply N.Div0.div_lt_upper_bound; lia).
    assert (c `mod` 16 < 16)%N as Hlo by (apply N.mod_lt; lia).
    assert (∀ n, (n < 16)%N →
              (if decide (upper_hex_digit n = 43%N) then 32%N
               else upper_hex_digit n) = upper_hex_digit n) as Hplus.
    { intros n Hn. rewrite decide_False; [done|].
      unfold upper_hex_digit. destruct (n <? 10)%N; lia. }
    cbn [fmap list_fmap app]. rewrite decide_False by done.
    rewrite !Hplus by done.
    cbn [percent_decode]. rewrite decide_True by done.
    rewrite !hex_value_upper_hex_digit by done.
    f_equal; [|exact IH].
    pose proof (N.Div0.div_mod c 16). lia.
  - cbn [fmap list_fmap app]. rewrite decide_False by done.
    rewrite percent_decode_other by done. by f_equal.
Qed.

Lemma query_encode_no_amp (s : jsstring) :
  38%N ∉ s → 38%N ∉ query_encode s.
Proof.
  intros Hs Hin. apply list_elem_of_bind in Hin as (c & Hin & Hc).
  unfold query_encode_char in Hin. destruct (query_encoded c).
  - assert (∀ n, upper_hex_digit n ≠ 38%N) as Hhex.
    { intros n. unfold upper_hex_digit. destruct (n <? 10)%N; lia. }
    rewrite !elem_of_cons, elem_of_nil in Hin.
    destruct Hin as [?|[Hin|[Hin|[]]]]; [done|by symmetry in Hin; apply Hhex in Hin..].
  - apply list_elem_of_singleton in Hin as <-. done.
Qed.

Lemma split_on_app (sep : N) (a b : jsstring) :
  sep ∉ a → split_on sep (a ++ sep :: b) = a :: split_on sep b.
Proof.
  induction a as [|c a IH]; intros Ha; cbn [split_on app].
  - by rewrite decide_True.
  - rewrite decide_False by set_solver. rewrite IH by set_solver. done.
Qed.

Lemma split_on_absent (sep : N) (a : jsstring) :
  sep ∉ a → split_on sep a = [a].
Proof.
  induction a as [|c a IH]; intros Ha; cbn [split_on]; [done|].
  rewrite decide_False by set_solver. rewrite IH by set_solver. done.
Qed.

Lemma urlencoded_pair_stop_id (a : jsstring) :
  Forall address_char a →
  urlencoded_pair (js "stop_id=" ++ query_encode a) = (js "stop_id", a).
Proof.
  intros Ha. unfold urlencoded_pair.
  assert (name_value (js "stop_id=" ++ query_encode a)
          = (js "stop_id", query_encode a)) as -> by (by vm_compute).
  rewrite percent_decode_query_encode by done.
  f_equal.
Qed.

Lemma address_char_no_amp (a : jsstring) :
  Forall address_char a → 38%N ∉ js "stop_id=" ++ query_encode a.
Proof.
  intros Ha Hin. apply elem_of_app in Hin as [Hin|Hin].
  - revert Hin. apply (bool_decide_unpack _). by vm_compute.
  - revert Hin. apply query_encode_no_amp. intros Hin.
    rewrite Forall_forall in Ha. apply Ha in Hin as [_ Hin].
    apply Hin. set_solver.
Qed.

Lemma address_char_in_model (a : jsstring) :
  Forall address_char a → in_address_model a = true.
Proof.
  intros Ha. unfold in_address_model. apply forallb_forall.
  intros c Hc%list_elem_of_In. rewrite Forall_forall in Ha.
  destruct (Ha c Hc) as [Hlt Hn]. apply andb_true_iff. split.
  - by apply N.ltb_lt.
  - apply negb_true_iff, bool_decide_eq_false. intros ->. apply Hn.
    set_solver.
Qed.

Lemma in_address_model_app (a b : jsstring) :
  in_address_model (a ++ b) = in_address_model a && in_address_model b.
Proof. apply forallb_app. Qed.

Lemma pushed_search_safe (stopId : jsstring) :
  address_safe stopId → pushed_search stopId = Some [(js "stop_id", stopId)].
Proof.
  intros [Ha Hl]. unfold pushed_search.
  rewrite address_char_in_model by done. f_equal.
  unfold pushed_query, urlencoded_parse.
  rewrite strip_trailing_c0_space_safe, remove_tab_newline_safe,
    until_hash_safe by done.
  rewrite split_on_absent by by apply address_char_no_amp.
  rewrite filter_cons, decide_True, filter_nil by by vm_compute.
  cbn [fmap list_fmap]. by rewrite urlencoded_pair_stop_id.
Qed.

Lemma pushed_search_hash (a b : jsstring) :
  Forall address_char a → in_address_model b = true →
  pushed_search (a ++ 35%N :: b) = Some [(js "stop_id", a)].
Proof.
  intros Ha Hb. unfold pushed_search.
  rewrite in_address_model_app, address_char_in_model by done.
  change (in_address_model (35%N :: b)) with (in_address_model b).
  rewrite Hb. cbn [andb]. f_equal.
  unfold pushed_query, urlencoded_parse.
  rewrite strip_trailing_c0_space_app by lia.
  rewrite remove_tab_newline_app, remove_tab_newline_safe by done.
  unfold remove_tab_newline at 1. rewrite filter_cons, decide_True
    by (rewrite !elem_of_cons, elem_of_nil; lia).
  rewrite until_hash_app by done.
  rewrite split_on_absent by by apply address_char_no_amp.
  rewrite filter_cons, decide_True, filter_nil by by vm_compute.
  cbn [fmap list_fmap]. by rewrite urlencoded_pair_stop_id.
Qed.

Lemma pushed_search_amp (a b : jsstring) :
  Forall address_char a → in_address_model b = true →
  ∃ rest, pushed_search (a ++ 38%N :: b) = Some ((js "stop_id", a) :: rest).
Proof.
  intros Ha Hb. unfold pushed_search.
  rewrite in_address_model_app, address_char_in_model by done.
  change (in_address_model (38%N :: b)) with (in_address_model b).
  rewrite Hb. cbn [andb].
  unfold pushed_query, urlencoded_parse.
  rewrite strip_trailing_c0_space_app by lia.
  rewrite remove_tab_newline_app, remove_tab_newline_safe by done.
  unfold remove_tab_newline at 1. rewrite filter_cons, decide_True
    by (rewrite !elem_of_cons, elem_of_nil; lia).
  rewrite until_hash_amp by done.
  rewrite query_encode_app.
  change (query_encode (38%N :: ?x)) with (38%N :: query_encode x).
  rewrite app_assoc, split_on_app by by apply address_char_no_amp.
  rewrite filter_cons, decide_True by by vm_compute.
  cbn [fmap list_fmap]. rewrite urlencoded_pair_stop_id by done.
  by eexists.
Qed.

Lemma URLSearchParams_get_head (k v : jsstring)
    (rest : list (jsstring * jsstring)) :
  URLSearchParams_get k ((k, v) :: rest) = Some v.
Proof. cbn [URLSearchParams_get]. by rewrite decide_True. Qed.

(** X18: the address carries a stop id unchanged when the id is ASCII, holds
    no tab, line break, [#], [%], [&] or [+] and does not end in a space or
    a control: after [pushState] for it the page's one query parameter is
    [stop_id] with that id, and nothing else of the page changes. *)
Theorem address_round_trip (stopId : jsstring) (st : State) :
  address_safe stopId →
  pushState_stop_id stopId st
  = Some (set_location_search [(js "stop_id", stopId)] st)
  ∧ ∀ st', pushState_stop_id stopId st = Some st' →
      URLSearchParams_get (js "stop_id") (location_search st') = Some stopId.
Proof.
  intros Hs. unfold pushState_stop_id. rewrite pushed_search_safe by done.
  split; [done|]. intros st' [= <-].
  apply URLSearchParams_get_head.
Qed.

Lemma address_round_trip_witness :
  let st := page [] None in
  address_safe (js "King St 101")
  ∧ pushState_stop_id (js "King St 101") st
    = Some (set_location_search [(js "stop_id", js "King St 101")] st)
  ∧ ∀ st', pushState_stop_id (js "King St 101") st = Some st' →
      URLSearchParams_get (js "stop_id") (location_search st')
      = Some (js "King St 101").
Proof.
  assert (address_safe (js "King St 101")) as Hs.
  { split.
    - apply (bool_decide_unpack _). by vm_compute.
    - intros c [= <-]. by vm_compute. }
  split; [exact Hs|]. by apply address_round_trip.
Defined.

Lemma trigger_refresh_frame (d : Document) :
  page_state (trigger_refresh d) = page_state d
  ∧ stop_id_input (trigger_refresh d) = stop_id_input d
  ∧ auto_refresh (trigger_refresh d) = auto_refresh d
  ∧ refreshes (trigger_refresh d)
    = (if auto_refresh d then S (refreshes d) else refreshes d).
Proof.
  unfold trigger_refresh. destruct d as [? ? ? ? ? ? ? ? ? [] ? ? ?]; done.
Qed.

Lemma read_address_input (d : Document) (stopId old : jsstring) :
  URLSearchParams_get (js "stop_id") (location_search (page_state d))
  = Some stopId →
  stopId ≠ [] →
  stop_id_input d = Some old →
  stop_id_input (read_address d) = Some stopId
  ∧ refreshes (read_address d)
    = (if auto_refresh d then S (refreshes d) else refreshes d)
  ∧ page_state (read_address d) = page_state d.
Proof.
  intros Hget Hne Hin. unfold read_address. rewrite Hget, Hin.
  destruct stopId as [|c s]; [done|]. cbn [is_empty].
  destruct (trigger_refresh_frame (set_stop_id_input (Some (c :: s)) d))
    as (-> & -> & _ & ->).
  done.
Qed.

(** X19: a click on a favourite card, outside its button, opens the stop.
    For a card whose stop id the address carries unchanged: the address
    then holds that stop id; with the stop input in the document the input
    holds it too and the view is refreshed once when the refresh element is
    there; without the input nothing but the address changes.  The
    favourites, the store and the cards stay as they are. *)
Theorem click_card_opens_stop (d : Document) (i : nat) (c : card) :
  default [] (favourites_list (page_state d)) !! i = Some c →
  address_safe (card_click c).1 →
  ∃ d', click_card i d = Some d'
    ∧ location_search (page_state d') = [(js "stop_id", (card_click c).1)]
    ∧ stop_id_input d'
      = (if stop_id_input d is Some _ then Some (card_click c).1 else None)
    ∧ refreshes d'
      = (if stop_id_input d is Some _
         then if auto_refresh d then S (refreshes d) else refreshes d
         else refreshes d)
    ∧ favourites (page_state d') = favourites (page_state d)
    ∧ localStorage (page_state d') = localStorage (page_state d)
    ∧ favourites_list (page_state d') = favourites_list (page_state d)
    ∧ bus_times_heading (page_state d') = bus_times_heading (page_state d).
Proof.
  intros Hc Hs. unfold click_card, pushState_stop_id. rewrite Hc.
  rewrite pushed_search_safe by done. cbn [mbind option_bind].
  eexists. split; [reflexivity|].
  by destruct d as [st th li di tt pd sn [old|] fo [] n ls fm].
Qed.

Lemma click_card_opens_stop_witness :
  let d :=
    whole_document
      (renderFavourites (page [(js "101", js "Main St")] None)) false in
  let c := make_card (js "101", js "Main St") in
  default [] (favourites_list (page_state d)) !! 0%nat = Some c
  ∧ address_safe (card_click c).1
  ∧ ∃ d', click_card 0 d = Some d'
      ∧ location_search (page_state d') = [(js "stop_id", (card_click c).1)]
      ∧ stop_id_input d'
        = (if stop_id_input d is Some _ then Some (card_click c).1 else None)
      ∧ refreshes d'
        = (if stop_id_input d is Some _
           then if auto_refresh d then S (refreshes d) else refreshes d
           else refreshes d)
      ∧ favourites (page_state d') = favourites (page_state d)
      ∧ localStorage (page_state d') = localStorage (page_state d)
      ∧ favourites_list (page_state d') = favourites_list (page_state d)
      ∧ bus_times_heading (page_state d') = bus_times_heading (page_state d).
Proof.
  assert (address_safe (js "101")) as Hs.
  { split.
    - apply (bool_decide_unpack _). by vm_compute.
    - intros c [= <-]. by vm_compute. }
  split; [done|]. split; [exact Hs|].
  exact (click_card_opens_stop
           (whole_document
              (renderFavourites (page [(js "101", js "Main St")] None)) false)
           0 (make_card (js "101", js "Main St")) eq_refl Hs).
Defined.

(** X20: the address cuts a stop id at [&] and at [#].  For a card whose
    stop id is [a], one of the two, and more, with [a] of code units the
    address carries unchanged: after the click the stop input holds the
    whole id, the address holds [a] only, and the listener of [popstate]
    (or the check of the address when the page is loaded again) puts [a]
    into the input when [a] is not empty. *)
Theorem click_card_cuts_stop_id (d : Document) (i : nat) (c : card)
    (a b old : jsstring) (sep : N) :
  default [] (favourites_list (page_state d)) !! i = Some c →
  (card_click c).1 = a ++ sep :: b →
  sep = 38%N ∨ sep = 35%N →
  Forall address_char a →
  in_address_model b = true →
  stop_id_input d = Some old →
  ∃ d', click_card i d = Some d'
    ∧ stop_id_input d' = Some (a ++ sep :: b)
    ∧ URLSearchParams_get (js "stop_id") (location_search (page_state d'))
      = Some a
    ∧ (a ≠ [] → stop_id_input (read_address d') = Some a).
Proof.
  intros Hc Hid Hsep Ha Hb Hin.
  assert (∃ rest, pushed_search (a ++ sep :: b)
                  = Some ((js "stop_id", a) :: rest)) as [rest Hp].
  { destruct Hsep as [-> | ->].
    - by apply pushed_search_amp.
    - eexists. by apply pushed_search_hash. }
  unfold click_card, pushState_stop_id. rewrite Hc, Hid, Hp.
  cbn [mbind option_bind].
  eexists. split; [reflexivity|].
  destruct d as [st th li di tt pd sn inp fo ar n ls fm].
  cbn [stop_id_input] in Hin. subst inp.
  cbn [set_page_state stop_id_input].
  set (d1 := set_stop_id_input _ _).
  destruct (trigger_refresh_frame d1) as (Hps & Hi & Har & Hr).
  assert (URLSearchParams_get (js "stop_id")
            (location_search (page_state (trigger_refresh d1))) = Some a)
    as Hget by (rewrite Hps; apply URLSearchParams_get_head).
  split; [by rewrite Hi|]. split; [exact Hget|].
  intros Hne.
  by destruct (read_address_input (trigger_refresh d1) a (a ++ sep :: b)
                 Hget Hne ltac:(by rewrite Hi)) as (-> & _).
Qed.

Lemma click_card_cuts_stop_id_witness :
  let d :=
    whole_document
      (renderFavourites (page [(js "12&x", js "Main St")] None)) false in
  let c := make_card (js "12&x", js "Main St") in
  default [] (favourites_list (page_state d)) !! 0%nat = Some c
  ∧ (card_click c).1 = js "12" ++ 38%N :: js "x"
  ∧ (38%N = 38%N ∨ 38%N = 35%N)
  ∧ Forall address_char (js "12")
  ∧ in_address_model (js "x") = true
  ∧ stop_id_input d = Some []
  ∧ ∃ d', click_card 0 d = Some d'
      ∧ stop_id_input d' = Some (js "12" ++ 38%N :: js "x")
      ∧ URLSearchParams_get (js "stop_id") (location_search (page_state d'))
        = Some (js "12")
      ∧ (js "12" ≠ [] → stop_id_input (read_address d') = Some (js "12")).
Proof.
  assert (Forall address_char (js "12")) as Ha
    by (apply (bool_decide_unpack _); by vm_compute).
  split; [done|]. split; [done|]. split; [by left|]. split; [exact Ha|].
  split; [done|]. split; [done|].
  exact (click_card_cuts_stop_id
           (whole_document
              (renderFavourites (page [(js "12&x", js "Main St")] None)) false)
           0 (make_card (js "12&x", js "Main St")) (js "12") (js "x") [] 38%N
           eq_refl eq_refl (or_introl eq_refl) Ha eq_refl eq_refl).
Defined.

(** X21: the address restores the stop input.  The form is submitted with
    a stop id in the input that the address carries unchanged: the address
    then holds that stop id, and whatever a later selection writes into the
    input, the listener of [popstate] writes the submitted id back and
    refreshes the view once when the refresh element is there. *)
Theorem popstate_restores_input (d : Document) (stopId : jsstring) :
  stop_id_input d = Some stopId →
  stopId ≠ [] →
  address_safe stopId →
  ∃ d1, form_submit d = Some d1
    ∧ location_search (page_state d1) = [(js "stop_id", stopId)]
    ∧ stop_id_input d1 = Some stopId
    ∧ refreshes d1 = refreshes d
    ∧ ∀ value,
        let d2 := read_address (select_complete value d1) in
        stop_id_input (select_complete value d1) = Some value
        ∧ stop_id_input d2 = Some stopId
        ∧ refreshes d2
          = (if auto_refresh d then S (refreshes d) else refreshes d).
Proof.
  intros Hin Hne Hs. unfold form_submit, pushState_stop_id.
  rewrite Hin, pushed_search_safe by done.
  destruct stopId as [|c s]; [done|]. cbn [is_empty mbind option_bind].
  eexists. split; [reflexivity|].
  destruct d as [st th li di tt pd sn inp fo ar n ls fm].
  cbn [stop_id_input] in Hin. subst inp.
  split; [done|]. split; [done|]. split; [done|].
  intros value. split; [done|].
  set (d2 := select_complete value _).
  destruct (read_address_input d2 (c :: s) value) as (H1 & H2 & _);
    [by cbn; rewrite decide_True|done..|].
  by rewrite H1, H2.
Qed.

Lemma popstate_restores_input_witness :
  let d :=
    set_stop_id_input (Some (js "101")) (whole_document (page [] None) false) in
  stop_id_input d = Some (js "101")
  ∧ js "101" ≠ []
  ∧ address_safe (js "101")
  ∧ ∃ d1, form_submit d = Some d1
      ∧ location_search (page_state d1) = [(js "stop_id", js "101")]
      ∧ stop_id_input d1 = Some (js "101")
      ∧ refreshes d1 = refreshes d
      ∧ ∀ value,
          let d2 := read_address (select_complete value d1) in
          stop_id_input (select_complete value d1) = Some value
          ∧ stop_id_input d2 = Some (js "101")
          ∧ refreshes d2
            = (if auto_refresh d then S (refreshes d) else refreshes d).
Proof.
  assert (address_safe (js "101")) as Hs.
  { split.
    - apply (bool_decide_unpack _). by vm_compute.
    - intros c [= <-]. by vm_compute. }
  split; [done|]. split; [done|]. split; [exact Hs|].
  exact (popstate_restores_input
           (set_stop_id_input (Some (js "101"))
              (whole_document (page [] None) false))
           (js "101") eq_refl ltac:(done) Hs).
Defined.

(** ** The listener of [DOMContentLoaded] *)

Lemma manager_part_refl (st : State) : manager_part st st.
Proof. by repeat split. Qed.

Lemma init_theme_frame (d : Document) :
  manager_part (page_state d) (page_state (init_theme d).1)
  ∧ listeners (init_theme d).1 = listeners d
  ∧ favouritesManager (init_theme d).1 = favouritesManager d
  ∧ stop_name_input (init_theme d).1 = stop_name_input d
  ∧ stop_id_input (init_theme d).1 = stop_id_input d
  ∧ form (init_theme d).1 = form d
  ∧ theme_toggle (init_theme d).1 = theme_toggle d
  ∧ auto_refresh (init_theme d).1 = auto_refresh d
  ∧ refreshes (init_theme d).1 = refreshes d.
Proof.
  pose proof (init_theme_favourites_key d) as Hk. revert Hk.
  unfold init_theme, updateThemeIcon, manager_part.
  destruct d as [st th [li|] [di|] tt pd sn inp fo ar n ls fm];
    cbn [page_state location_search];
    destruct (falsy _), (decide (_ = js "dark")); cbn; done.
Qed.

Lemma init_theme_outcome (d : Document) :
  (init_theme d).2
  = (if light_icon d is Some _
     then if dark_icon d is Some _ then Completed else Threw TypeError
     else Threw TypeError).
Proof.
  unfold init_theme, updateThemeIcon.
  destruct d as [st th [li|] [di|] tt pd sn inp fo ar n ls fm];
    cbn [page_state location_search];
    destruct (falsy _), (decide (_ = js "dark")); cbn; done.
Qed.

Lemma read_address_frame (d : Document) :
  page_state (read_address d) = page_state d
  ∧ listeners (read_address d) = listeners d
  ∧ favouritesManager (read_address d) = favouritesManager d
  ∧ data_theme (read_address d) = data_theme d.
Proof.
  unfold read_address, trigger_refresh.
  destruct d as [st th li di tt pd sn [inp|] fo [] n ls fm];
    cbn [page_state];
    destruct (URLSearchParams_get _ _) as [[|c s]|]; done.
Qed.

Lemma stop_handling_frame (d : Document) :
  page_state (stop_handling d).1 = page_state d
  ∧ favouritesManager (stop_handling d).1 = favouritesManager d
  ∧ data_theme (stop_handling d).1 = data_theme d
  ∧ (AfterSwap ∈ listeners (stop_handling d).1 → AfterSwap ∈ listeners d).
Proof.
  unfold stop_handling.
  destruct (stop_name_input d && bool_decide (is_Some (stop_id_input d)));
    [|done].
  destruct (form _) eqn:Hf; cbn [fst].
  - destruct (read_address_frame
                (add_listener PopState
                   (add_listener FormSubmit
                      (add_listener SelectComplete
                         (add_listener StopInput d)))))
      as (-> & -> & -> & ->).
    repeat split. cbn [add_listener listeners].
    rewrite !elem_of_app, !list_elem_of_singleton.
    by intros [[[[?|?]|?]|?]|?].
  - repeat split. cbn [add_listener listeners].
    rewrite !elem_of_app, !list_elem_of_singleton.
    by intros [[?|?]|?].
Qed.

Lemma stop_handling_outcome (d : Document) :
  (stop_handling d).2
  = (if stop_name_input d && bool_decide (is_Some (stop_id_input d))
     then if form d then Completed else Threw TypeError
     else Completed).
Proof.
  unfold stop_handling.
  destruct (stop_name_input d && bool_decide (is_Some (stop_id_input d)));
    [|done].
  by destruct (form d) eqn:Hf; cbn [add_listener form]; rewrite Hf.
Qed.

Lemma manager_part_loadFavourites (st st' : State) :
  manager_part st st' → loadFavourites st' = loadFavourites st.
Proof. intros (_ & _ & _ & _ & _ & Hk). unfold loadFavourites. by rewrite Hk. Qed.




Lemma theme_toggle_listener_frame (d : Document) :
  let d2 := if theme_toggle d then add_listener ThemeClick d else d in
  page_state d2 = page_state d
  ∧ stop_name_input d2 = stop_name_input d
  ∧ stop_id_input d2 = stop_id_input d
  ∧ form d2 = form d.
Proof. by destruct (theme_toggle d). Qed.

Lemma load_reaches_manager (d : Document) :
  reaches_manager d →
  ∃ d4,
    DOMContentLoaded d
    = match new_FavouritesManager (page_state d4) with
      | Throw e => Some (d4, Threw (Raised e))
      | Normal None => None
      | Normal (Some st) =>
          Some (set_favouritesManager true
                  (add_listener AfterSwap (set_page_state st d4)),
                Completed)
      end
    ∧ manager_part (page_state d) (page_state d4)
    ∧ (∃ before, listeners d4 = before ++ [ResponseError])
    ∧ (theme_toggle d = true → ThemeClick ∈ listeners d4)
    ∧ data_theme d4 = data_theme (init_theme d).1
    ∧ favouritesManager d4 = favouritesManager d
    ∧ (AfterSwap ∈ listeners d4 → AfterSwap ∈ listeners d).
Proof.
  intros ([li Hli] & [di Hdi] & Hform). unfold DOMContentLoaded.
  pose proof (init_theme_outcome d) as Ho. rewrite Hli, Hdi in Ho.
  destruct (init_theme_frame d)
    as (Hm & Hl & Hfm & Hsn & Hin & Hfo & Htt & _).
  destruct (init_theme d) as [d1 o1]. cbn [fst snd] in *. subst o1.
  set (d2 := if theme_toggle d1 then _ else _).
  destruct (theme_toggle_listener_frame d1) as (Hp2 & Hsn2 & Hin2 & Hfo2).
  fold d2 in Hp2, Hsn2, Hin2, Hfo2.
  assert (theme_toggle d = true → ThemeClick ∈ listeners d2) as Hth.
  { intros Ht. subst d2. rewrite Htt, Ht. cbn [add_listener listeners].
    rewrite elem_of_app, list_elem_of_singleton. by right. }
  assert (favouritesManager d2 = favouritesManager d1
          ∧ (AfterSwap ∈ listeners d2 → AfterSwap ∈ listeners d1))
    as (Hfm2 & Hl2).
  { subst d2. destruct (theme_toggle d1); [|done].
    split; [done|]. cbn [add_listener listeners].
    rewrite elem_of_app, list_elem_of_singleton. by intros [?|?]. }
  pose proof (stop_handling_outcome d2) as Ho3.
  destruct (stop_handling_frame d2) as (Hp3 & Hfm3 & Hd3 & Hl3').
  assert (∀ l, l ∈ listeners d2 → l ∈ listeners (stop_handling d2).1) as Hl3.
  { intros l Hin'. unfold stop_handling.
    destruct (_ && _); [|done].
    destruct (form (add_listener _ _)); cbn [fst].
    - destruct (read_address_frame
                  (add_listener PopState
                     (add_listener FormSubmit
                        (add_listener SelectComplete
                           (add_listener StopInput d2)))))
        as (_ & -> & _).
      cbn [add_listener listeners]. rewrite !elem_of_app. tauto.
    - cbn [add_listener listeners]. rewrite !elem_of_app. tauto. }
  assert ((stop_handling d2).2 = Completed) as Hc.
  { rewrite Ho3, Hsn2, Hin2, Hfo2, Hsn, Hin, Hfo.
    destruct (stop_name_input d) eqn:Es; [|done].
    destruct (stop_id_input d) as [inp|] eqn:Ei; [|done].
    cbn. by rewrite Hform. }
  clear Ho3.
  destruct (stop_handling d2) as [d3 o3]. cbn [fst snd] in *. subst o3.
  exists (add_listener ResponseError d3). split; [done|].
  cbn [add_listener page_state listeners data_theme favouritesManager].
  rewrite Hp3, Hp2, Hd3, Hfm3, Hfm2, Hfm. split; [done|].
  split; [by eexists|].
  split; [intros Ht; rewrite elem_of_app; left; auto|].
  split; [subst d2; by destruct (theme_toggle d1)|].
  split; [done|].
  rewrite elem_of_app, list_elem_of_singleton, <- Hl.
  by intros [?|?]; auto.
Qed.


(** X24: favourites in the store that are no JSON break the favourites and
    nothing else.  With the elements of X23 in the document, the listener
    applies the theme and installs the listeners of the toggle and of failed
    requests, then throws the [SyntaxError] of [JSON.parse]: no manager is
    assigned, no listener for [htmx:afterSwap] is installed, no card is
    rendered, and the stored text stays, so that the next load fails in the
    same way. *)
Theorem malformed_store_breaks_the_manager (d : Document) (s : jsstring)
    (e : exception) :
  reaches_manager d →
  getItem storage_key d = Some s →
  s ≠ [] →
  JSON_parse s = Throw e →
  ∃ d', DOMContentLoaded d = Some (d', Threw (Raised e))
    ∧ getItem storage_key d' = Some s
    ∧ favouritesManager d' = favouritesManager d
    ∧ favourites_list (page_state d') = favourites_list (page_state d)
    ∧ (AfterSwap ∈ listeners d' → AfterSwap ∈ listeners d)
    ∧ ResponseError ∈ listeners d'
    ∧ (theme_toggle d = true → ThemeClick ∈ listeners d')
    ∧ data_theme d' = data_theme (init_theme d).1.
Proof.
  intros Hr Hs Hne Hp.
  destruct (load_reaches_manager d Hr)
    as (d4 & Heq & Hm & Hre & Hth & Hd & Hfm & Hl).
  assert (new_FavouritesManager (page_state d4) = Throw e) as Hnew.
  { unfold new_FavouritesManager.
    rewrite (manager_part_loadFavourites _ _ Hm).
    unfold loadFavourites. unfold getItem in Hs. rewrite Hs.
    destruct s; [done|]. cbn [is_empty]. by rewrite Hp. }
  rewrite Hnew in Heq. exists d4. split; [done|].
  destruct Hm as (_ & Hfl & _ & _ & _ & Hk).
  split; [by unfold getItem in *; rewrite Hk|].
  destruct Hre as [before Hb]. repeat split; try done.
  rewrite Hb, elem_of_app, list_elem_of_singleton. by right.
Qed.

Lemma whole_document_reaches_manager (st : State) (dark : bool) :
  reaches_manager (whole_document st dark).
Proof. split; [by eexists|]. split; [by eexists|done]. Qed.

Lemma malformed_store_breaks_the_manager_witness :
  let d := whole_document (page [] (Some (js "not json"))) false in
  reaches_manager d
  ∧ getItem storage_key d = Some (js "not json")
  ∧ js "not json" ≠ []
  ∧ JSON_parse (js "not json") = Throw SyntaxError
  ∧ ∃ d', DOMContentLoaded d = Some (d', Threw (Raised SyntaxError))
      ∧ getItem storage_key d' = Some (js "not json")
      ∧ favouritesManager d' = favouritesManager d
      ∧ favourites_list (page_state d') = favourites_list (page_state d)
      ∧ (AfterSwap ∈ listeners d' → AfterSwap ∈ listeners d)
      ∧ ResponseError ∈ listeners d'
      ∧ (theme_toggle d = true → ThemeClick ∈ listeners d')
      ∧ data_theme d' = data_theme (init_theme d).1.
Proof.
  split; [apply whole_document_reaches_manager|].
  split; [done|]. split; [done|]. split; [by vm_compute|].
  apply (malformed_store_breaks_the_manager
           (whole_document (page [] (Some (js "not json"))) false)
           (js "not json") SyntaxError);
    [apply whole_document_reaches_manager|done|done|by vm_compute].
Defined.

(** X25: the listener of [DOMContentLoaded] completes when the elements of
    X23 are in the document and the store holds nothing, the empty string or
    the JSON text of an object of strings under [busStopFavourites].  The
    manager is then assigned and holds the stored favourites, one card is
    rendered for each of them, in their order, and the listener for
    [htmx:afterSwap] is installed after the one for failed requests.
    Loading writes neither the stored favourites nor the heading of the
    bus-times view: a heading that is in the document at load has no button
    until the view is swapped. *)
Theorem load_completes (d : Document) (v : value) (f : favourites_object) :
  reaches_manager d →
  loadFavourites (page_state d) = Normal v →
  favourites_of_value v = Some f →
  ∃ d', DOMContentLoaded d = Some (d', Completed)
    ∧ favouritesManager d' = true
    ∧ favourites (page_state d') = f
    ∧ (is_Some (favourites_list (page_state d)) →
       card_click <$> rendered_cards (page_state d') = f)
    ∧ (∃ before, listeners d' = before ++ [ResponseError; AfterSwap])
    ∧ getItem storage_key d' = getItem storage_key d
    ∧ bus_times_heading (page_state d') = bus_times_heading (page_state d)
    ∧ data_theme d' = data_theme (init_theme d).1.
Proof.
  intros Hr Hv Hf.
  destruct (load_reaches_manager d Hr)
    as (d4 & Heq & Hm & Hre & Hth & Hd & Hfm & Hl).
  assert (new_FavouritesManager (page_state d4)
          = Normal (Some (renderFavourites (set_favourites f (page_state d4)))))
    as Hnew.
  { unfold new_FavouritesManager.
    rewrite (manager_part_loadFavourites _ _ Hm), Hv, Hf. done. }
  rewrite Hnew in Heq. eexists. split; [exact Heq|].
  destruct Hm as (_ & Hfl & _ & Hh & _ & Hk).
  cbn [set_favouritesManager add_listener set_page_state favouritesManager
       page_state listeners data_theme].
  split; [done|]. rewrite renderFavourites_favourites.
  split; [done|]. split.
  { intros Hlist. unfold rendered_cards.
    rewrite renderFavourites_cards by (cbn [set_favourites favourites_list];
                                        by rewrite Hfl).
    cbn [set_favourites favourites default from_option id].
    apply made_cards_click. }
  split.
  { destruct Hre as [before Hb]. rewrite Hb, <- app_assoc. by eexists. }
  unfold getItem.
  cbn [set_favouritesManager add_listener set_page_state page_state].
  rewrite renderFavourites_localStorage.
  rewrite renderFavourites_bus_times_heading.
  cbn [set_favourites localStorage bus_times_heading].
  by rewrite Hk, Hh.
Qed.

Lemma load_completes_witness :
  let d :=
    whole_document
      (page [] (Some (JSON_stringify [(js "5", js "King St")]))) true in
  reaches_manager d
  ∧ loadFavourites (page_state d)
    = Normal (VObject [(js "5", VString (js "King St"))])
  ∧ favourites_of_value (VObject [(js "5", VString (js "King St"))])
    = Some [(js "5", js "King St")]
  ∧ ∃ d', DOMContentLoaded d = Some (d', Completed)
      ∧ favouritesManager d' = true
      ∧ favourites (page_state d') = [(js "5", js "King St")]
      ∧ (is_Some (favourites_list (page_state d)) →
         card_click <$> rendered_cards (page_state d')
         = [(js "5", js "King St")])
      ∧ (∃ before, listeners d' = before ++ [ResponseError; AfterSwap])
      ∧ getItem storage_key d' = getItem storage_key d
      ∧ bus_times_heading (page_state d')
        = bus_times_heading (page_state d)
      ∧ data_theme d' = data_theme (init_theme d).1.
Proof.
  split; [apply whole_document_reaches_manager|].
  split; [by vm_compute|]. split; [done|].
  apply (load_completes
           (whole_document
              (page [] (Some (JSON_stringify [(js "5", js "King St")]))) true)
           (VObject [(js "5", VString (js "King St"))])
           [(js "5", js "King St")]);
    [apply whole_document_reaches_manager|by vm_compute|done].
Defined.

(** * The service worker *)

Lemma own_delete_filter {V : Type} (k : jsstring) (o : list (jsstring * V)) :
  own_delete k o = filter (λ p, p.1 ≠ k) o.
Proof.
  induction o as [|[k0 v0] o IH]; [done|]. cbn [own_delete].
  rewrite filter_cons. cbn [fst].
  destruct (decide (k = k0)) as [->|Hk].
  - by rewrite decide_False by (by intros []).
  - rewrite decide_True by done. by rewrite IH.
Qed.

Lemma filter_iff_in {A : Type} (P1 P2 : A → Prop)
    `{!∀ x, Decision (P1 x), !∀ x, Decision (P2 x)} (l : list A) :
  (∀ x, x ∈ l → P1 x ↔ P2 x) → filter P1 l = filter P2 l.
Proof.
  induction l as [|a l IH]; intros Hiff; [done|].
  rewrite !filter_cons.
  rewrite IH by (intros x Hx; apply Hiff; by right).
  destruct (decide (P1 a)) as [H1|H1], (decide (P2 a)) as [H2|H2];
    try done; exfalso; apply (Hiff a) in H1 || apply (Hiff a) in H2;
    done || by left.
Qed.

Lemma activate_fold (names : list jsstring) (cs : cache_storage) :
  foldl (λ cs cacheName,
           if bool_decide (cacheName ∈ cacheWhitelist) then cs
           else own_delete cacheName cs) cs names
  = filter (λ p, p.1 ∈ cacheWhitelist ∨ p.1 ∉ names) cs.
Proof.
  revert cs. induction names as [|n names IH]; intros cs; cbn [foldl].
  - induction cs as [|p cs IHcs]; [done|].
    rewrite filter_cons, decide_True, <- IHcs; [done|].
    right. apply not_elem_of_nil.
  - rewrite IH. case_bool_decide as Hn.
    + apply list_filter_iff. intros p. rewrite not_elem_of_cons.
      split; [|tauto]. intros [?|?]; [by left|].
      destruct (decide (p.1 = n)) as [->|?]; [by left|by right].
    + rewrite own_delete_filter, list_filter_filter.
      apply list_filter_iff. intros p. rewrite not_elem_of_cons.
      split.
      * intros [[?|?] ?]; [by left|by right].
      * intros [Hw|[? ?]]; [|tauto]. split; [by left|].
        intros Heq. by rewrite Heq in Hw.
Qed.

Lemma filter_name (k : jsstring) (cs : cache_storage) :
  NoDup cs.*1 →
  filter (λ p, p.1 = k) cs
  = match own_get k cs with Some c => [(k, c)] | None => [] end.
Proof.
  induction cs as [|[k0 c0] cs IH]; [done|].
  rewrite fmap_cons, NoDup_cons. cbn [fst]. intros [Hk0 Hnd].
  rewrite filter_cons. cbn [fst own_get].
  destruct (decide (k = k0)) as [->|Hk].
  - rewrite decide_True by done. f_equal.
    rewrite IH by done. by apply own_get_None in Hk0 as ->.
  - rewrite decide_False by done. by apply IH.
Qed.

Lemma on_activate_keeps_one (cs : cache_storage) :
  NoDup cs.*1 →
  on_activate cs
  = match own_get CACHE_NAME cs with
    | Some c => [(CACHE_NAME, c)]
    | None => []
    end.
Proof.
  intros Hnd. unfold on_activate. rewrite activate_fold.
  rewrite <- (filter_name CACHE_NAME cs Hnd).
  apply filter_iff_in. intros p Hp.
  unfold cacheWhitelist. fold CACHE_NAME. rewrite list_elem_of_singleton.
  split; [|by left]. intros [?|Hn]; [done|].
  destruct Hn. apply list_elem_of_fmap. by exists p.
Qed.

Lemma own_get_singleton {V : Type} (k k' : jsstring) (v : V) :
  own_get k [(k', v)] = if decide (k = k') then Some v else None.
Proof. done. Qed.

Lemma own_get_cache_put (u url : jsstring) (r : response) (c : cache) :
  own_get u (cache_put url r c)
  = if decide (u = url) then Some r else own_get u c.
Proof.
  unfold cache_put. rewrite own_get_app, own_get_delete, own_get_singleton.
  destruct (decide (u = url)); [done|]. by destruct (own_get u c).
Qed.

Lemma own_get_put_all (pairs : list (jsstring * response)) (c : cache)
    (u : jsstring) :
  own_get u (foldl (λ c p, cache_put p.1 p.2 c) c pairs)
  = match own_get u (reverse pairs) with
    | Some r => Some r
    | None => own_get u c
    end.
Proof.
  revert c. induction pairs as [|[url r] pairs IH]; intros c; [done|].
  cbn [foldl fst snd]. rewrite IH, reverse_cons, own_get_app.
  rewrite own_get_cache_put, own_get_singleton.
  destruct (own_get u (reverse pairs)); [done|]. by destruct (decide (u = url)).
Qed.

Lemma own_get_fetched (net : network) (pairs : list (jsstring * response))
    (u : jsstring) :
  Forall (λ p, net (GET p.1) = Some p.2) pairs →
  own_get u pairs = if decide (u ∈ pairs.*1) then net (GET u) else None.
Proof.
  induction 1 as [|[url r] pairs Hp _ IH]; [done|].
  cbn [own_get]. rewrite fmap_cons. cbn [fst snd] in *.
  destruct (decide (u = url)) as [->|Hu].
  - rewrite decide_True by left. done.
  - rewrite IH. destruct (decide (u ∈ pairs.*1)) as [Hin|Hin].
    + rewrite decide_True by (by right). done.
    + rewrite decide_False; [done|]. by intros [?|?]%elem_of_cons.
Qed.

Lemma fetched_pairs (net : network) (urls : list jsstring)
    (rs : list response) :
  mapM (λ url, net (GET url)) urls = Some rs →
  (zip urls rs).*1 = urls
  ∧ Forall (λ p, net (GET p.1) = Some p.2) (zip urls rs).
Proof.
  intros H%mapM_Some_1. split.
  - apply fst_zip. by rewrite (Forall2_length _ _ _ H).
  - induction H; cbn; constructor; done.
Qed.

Lemma caches_open_keys (name : jsstring) (cs : cache_storage) :
  NoDup cs.*1 → NoDup (caches_open name cs).*1.
Proof.
  intros Hnd. unfold caches_open. destruct (own_get name cs) eqn:Hg; [done|].
  rewrite fmap_app. apply NoDup_app. split; [done|]. split.
  - intros k Hk [->|[]%elem_of_nil]%elem_of_cons.
    by apply own_get_None in Hg.
  - apply NoDup_singleton.
Qed.

Lemma caches_open_get (name : jsstring) (cs : cache_storage) :
  own_get name (caches_open name cs)
  = Some (default [] (own_get name cs)).
Proof.
  unfold caches_open. destruct (own_get name cs) eqn:Hg; [by rewrite Hg|].
  rewrite own_get_app, Hg. cbn. by rewrite decide_True.
Qed.

Lemma caches_match_app (rq : request) (cs cs' : cache_storage) :
  caches_match rq (cs ++ cs')
  = match caches_match rq cs with
    | Some r => Some r
    | None => caches_match rq cs'
    end.
Proof.
  induction cs as [|[name c] cs IH]; [done|]. cbn [caches_match app].
  by destruct (cache_match rq c).
Qed.

Lemma caches_match_open (rq : request) (name : jsstring) (cs : cache_storage) :
  caches_match rq (caches_open name cs) = caches_match rq cs.
Proof.
  unfold caches_open. destruct (own_get name cs); [done|].
  rewrite caches_match_app. destruct (caches_match rq cs); [done|].
  cbn. unfold cache_match. by destruct (decide _).
Qed.

Lemma cache_addAll_Some (net : network) (urls : list jsstring)
    (c0 c : cache) :
  cache_addAll net urls c0 = Some c →
  (∀ url, url ∈ urls → ∃ r, net (GET url) = Some r ∧ response_ok r = true)
  ∧ ∀ u, own_get u c
         = if decide (u ∈ urls) then net (GET u) else own_get u c0.
Proof.
  unfold cache_addAll. intros Hi.
  destruct (mapM _ urls) as [rs|] eqn:Hm; [|done].
  cbn [mbind option_bind] in Hi.
  destruct (forallb response_ok rs) eqn:Hok; [|done].
  destruct (fetched_pairs net urls rs Hm) as [Hfst Hall].
  injection Hi as <-.
  assert (∀ url, url ∈ urls →
            ∃ r, net (GET url) = Some r ∧ response_ok r = true) as Hacc.
  { intros url Hurl. pose proof Hall as Hall'.
    rewrite Forall_forall in Hall'.
    assert (url ∈ (zip urls rs).*1) as Hin by (by rewrite Hfst).
    apply list_elem_of_fmap in Hin as ([u r] & -> & Hp).
    exists r. split; [by apply (Hall' _ Hp)|].
    rewrite forallb_forall in Hok. apply Hok.
    apply list_elem_of_In. apply (elem_of_zip_r _ _ _ _ Hp). }
  split; [done|]. intros u. rewrite own_get_put_all.
  rewrite (own_get_fetched net) by (by apply Forall_reverse).
  rewrite fmap_reverse, Hfst.
  destruct (decide (u ∈ reverse urls)) as [Hin|Hin];
    rewrite elem_of_reverse in Hin.
  - rewrite decide_True by done. by destruct (Hacc _ Hin) as (r & -> & _).
  - by rewrite decide_False by done.
Qed.

(** X26: what the worker serves when the network does not answer.  After
    an install that succeeded and the activation, a request the network
    does not answer gets: nothing when it is no [GET]; for one of the five
    URLs of the worker's list the response the network gave at the install;
    for any other URL what a cache of the worker's name held for it before
    the install.  Caches of other names are deleted and answer nothing, and
    every response of the list was one [addAll] accepts. *)
Theorem offline_response (net net' : network) (cs cs1 : cache_storage)
    (rq : request) :
  NoDup cs.*1 →
  on_install net cs = (cs1, true) →
  net' rq = None →
  on_fetch net' rq (on_activate cs1)
  = (if decide (request_method rq = js "GET") then
       if decide (request_url rq ∈ urlsToCache)
       then net (GET (request_url rq))
       else own_get (request_url rq) (default [] (own_get CACHE_NAME cs))
     else None)
  ∧ (on_activate cs1).*1 = [CACHE_NAME]
  ∧ ∀ url, url ∈ urlsToCache →
      ∃ r, net (GET url) = Some r ∧ response_ok r = true.
Proof.
  intros Hnd Hi Hoff. unfold on_install in Hi.
  rewrite caches_open_get in Hi. cbn [default from_option id] in Hi.
  destruct (cache_addAll _ _ _) as [c|] eqn:Ha; [|done].
  injection Hi as <-.
  destruct (cache_addAll_Some _ _ _ _ Ha) as [Hacc Hget].
  assert (on_activate (own_update CACHE_NAME c (caches_open CACHE_NAME cs))
          = [(CACHE_NAME, c)]) as ->.
  { rewrite on_activate_keeps_one
      by (rewrite own_update_keys; by apply caches_open_keys).
    rewrite own_get_update, decide_True, caches_open_get by done. done. }
  split; [|by split].
  unfold on_fetch. rewrite Hoff. cbn [caches_match].
  unfold cache_match. destruct (decide (_ = js "GET")); [|done].
  rewrite Hget.
  by destruct (decide _);
    [destruct (net _)|destruct (own_get (request_url rq) _)].
Qed.

Lemma offline_response_witness :
  let net : network :=
    λ rq, Some {| response_ok := true; response_body := request_url rq |} in
  let net' : network := λ _, None in
  let cs : cache_storage :=
    [(js "old", [(js "/", {| response_ok := true; response_body := [] |})])] in
  let cs1 := (on_install net cs).1 in
  let rq := GET (js "/") in
  NoDup cs.*1
  ∧ on_install net cs = (cs1, true)
  ∧ net' rq = None
  ∧ (on_fetch net' rq (on_activate cs1)
     = (if decide (request_method rq = js "GET") then
          if decide (request_url rq ∈ urlsToCache)
          then net (GET (request_url rq))
          else own_get (request_url rq) (default [] (own_get CACHE_NAME cs))
        else None)
     ∧ (on_activate cs1).*1 = [CACHE_NAME]
     ∧ ∀ url, url ∈ urlsToCache →
         ∃ r, net (GET url) = Some r ∧ response_ok r = true).
Proof.
  intros net net' cs cs1 rq.
  assert (NoDup cs.*1) as Hnd by (apply NoDup_singleton).
  assert (on_install net cs = (cs1, true)) as Hi by (by vm_compute).
  split; [exact Hnd|]. split; [exact Hi|]. split; [done|].
  exact (offline_response net net' cs cs1 rq Hnd Hi eq_refl).
Defined.

Lemma cache_addAll_None (net : network) (urls : list jsstring) (c : cache)
    (url : jsstring) :
  url ∈ urls →
  (∀ r, net (GET url) = Some r → response_ok r = false) →
  cache_addAll net urls c = None.
Proof.
  intros Hin Hbad. destruct (cache_addAll net urls c) as [c'|] eqn:Ha; [|done].
  destruct (cache_addAll_Some _ _ _ _ Ha) as [Hacc _].
  destruct (Hacc url Hin) as (r & Hr & Hok).
  by rewrite (Hbad r Hr) in Hok.
Qed.

(** X27: an install is all or nothing.  When the network does not answer
    the request for one URL of the worker's list, or answers it with a
    response [addAll] does not accept, the promise given to [waitUntil] is
    rejected and no response is put, whatever the network gave for the
    other URLs: the storage is as before but for an empty cache of the
    worker's name when there was none, and it answers every request as
    before. *)
Theorem failed_install_puts_nothing (net : network) (cs : cache_storage)
    (url : jsstring) :
  url ∈ urlsToCache →
  (∀ r, net (GET url) = Some r → response_ok r = false) →
  on_install net cs = (caches_open CACHE_NAME cs, false)
  ∧ (∀ cacheName c, own_get cacheName cs = Some c →
       own_get cacheName (on_install net cs).1 = Some c)
  ∧ (∀ cacheName c, own_get cacheName (on_install net cs).1 = Some c →
       own_get cacheName cs = Some c
       ∨ cacheName = CACHE_NAME ∧ c = [] ∧ own_get CACHE_NAME cs = None)
  ∧ ∀ net' rq, on_fetch net' rq (on_install net cs).1 = on_fetch net' rq cs.
Proof.
  intros Hin Hbad.
  assert (on_install net cs = (caches_open CACHE_NAME cs, false)) as Hi.
  { unfold on_install. by rewrite (cache_addAll_None net _ _ url). }
  rewrite Hi. cbn [fst]. split; [done|]. split; [|split].
  - intros name c Hc. unfold caches_open.
    destruct (own_get CACHE_NAME cs); [done|].
    by rewrite own_get_app, Hc.
  - intros name c. unfold caches_open.
    destruct (own_get CACHE_NAME cs) eqn:Hn; [by left|].
    rewrite own_get_app. destruct (own_get name cs); [by left|].
    rewrite own_get_singleton. destruct (decide _) as [->|]; [|done].
    intros [= <-]. by right.
  - intros net' rq. unfold on_fetch. by rewrite caches_match_open.
Qed.

Lemma failed_install_puts_nothing_witness :
  let net : network :=
    λ rq, if decide (request_url rq = js "/static/manifest.json") then None
          else Some {| response_ok := true; response_body := [] |} in
  let cs : cache_storage := [] in
  js "/static/manifest.json" ∈ urlsToCache
  ∧ (∀ r, net (GET (js "/static/manifest.json")) = Some r →
       response_ok r = false)
  ∧ (on_install net cs = (caches_open CACHE_NAME cs, false)
     ∧ (∀ cacheName c, own_get cacheName cs = Some c →
          own_get cacheName (on_install net cs).1 = Some c)
     ∧ (∀ cacheName c, own_get cacheName (on_install net cs).1 = Some c →
          own_get cacheName cs = Some c
          ∨ cacheName = CACHE_NAME ∧ c = [] ∧ own_get CACHE_NAME cs = None)
     ∧ ∀ net' rq,
         on_fetch net' rq (on_install net cs).1 = on_fetch net' rq cs).
Proof.
  intros net cs.
  assert (js "/static/manifest.json" ∈ urlsToCache) as Hin
    by (apply (bool_decide_unpack _); by vm_compute).
  assert (∀ r, net (GET (js "/static/manifest.json")) = Some r →
            response_ok r = false) as Hbad by done.
  split; [exact Hin|]. split; [exact Hbad|].
  exact (failed_install_puts_nothing net cs _ Hin Hbad).
Defined.
